(** * Laser controller: serial command protocol and device state machine

    A shallow embedding of the Arduino sketch [laser_controller.ino] and of
    its second variant (the sketch without laser support), followed by the
    properties of the line reader, the command dispatcher and the device
    operations.

    Conventions of the embedding.
    - The globals of the sketch are the fields of one [state] record, and
      every C function is a computation in a small state/trace/error monad:
      it reads and writes the globals, appends the hardware and serial
      effects it performs to a trace, and has no result where C leaves the
      behaviour undefined (an array access out of bounds, a signed
      overflow).
    - [byte] is an unsigned 8-bit integer with wrap-around; [int] and
      [long] are the 16-bit and 32-bit signed integers of the AVR target.
    - The CustomStepper library and the Serial/GPIO primitives are not part
      of the sketch: the stepper is an abstract interface, the primitives
      are events of the trace. *)

From Stdlib Require Import ZArith QArith List String Ascii Bool Lia DecimalString.
From stdpp Require Import base list.
Import ListNotations.
Local Open Scope Z_scope.

(** ** C integer types *)

Definition INT_MAX : Z := 32767.
Definition INT_MIN : Z := -32768.
Definition LONG_MAX : Z := 2147483647.
Definition LONG_MIN : Z := -2147483648.

Definition in_int (z : Z) : bool := (INT_MIN <=? z) && (z <=? INT_MAX).
Definition in_long (z : Z) : bool := (LONG_MIN <=? z) && (z <=? LONG_MAX).

(** Conversion to [byte] (uint8_t) and to [unsigned long]: reduction modulo
    2^8 and 2^32. *)
Definition to_byte (z : Z) : Z := z mod 256.
Definition to_ulong (z : Z) : Z := z mod 4294967296.

(** Decimal text of an integer, as [Serial.print] writes it. *)
Definition dec (z : Z) : string := NilZero.string_of_int (Z.to_int z).

(** ** Characters and C strings *)

Definition NUL : ascii := "000"%char.
Definition NL : ascii := "010"%char.

(** The characters of the C string that starts at [s]: everything before
    the first NUL; [None] when the array ends before a NUL is found. *)
Fixpoint cstring (s : list ascii) : option (list ascii) :=
  match s with
  | [] => None
  | c :: s' =>
      if Ascii.eqb c NUL then Some []
      else match cstring s' with
           | Some r => Some (c :: r)
           | None => None
           end
  end.

(** The same characters without the check: the text a NUL-terminated
    buffer holds. *)
Fixpoint text (s : list ascii) : list ascii :=
  match s with
  | [] => []
  | c :: s' => if Ascii.eqb c NUL then [] else c :: text s'
  end.

Definition isspace (c : ascii) : bool :=
  let n := N.of_nat (nat_of_ascii c) in
  (N.eqb n 32 || (N.leb 9 n && N.leb n 13))%bool.

Definition digit_of (c : ascii) : option Z :=
  let n := Z.of_nat (nat_of_ascii c) in
  if (48 <=? n) && (n <=? 57) then Some (n - 48) else None.

Fixpoint skip_space (s : list ascii) : list ascii :=
  match s with
  | c :: s' => if isspace c then skip_space s' else s
  | [] => []
  end.

Fixpoint atoi_digits (acc : Z) (s : list ascii) : Z :=
  match s with
  | c :: s' =>
      match digit_of c with
      | Some d => atoi_digits (10 * acc + d) s'
      | None => acc
      end
  | [] => acc
  end.

(** [atoi] of the C library: optional white space, an optional sign, then
    decimal digits up to the first other character; 0 when there is no
    digit.  The result is undefined when it does not fit an [int]. *)
Definition atoi (s : list ascii) : option Z :=
  let s := skip_space s in
  let '(neg, s) :=
    match s with
    | c :: s' =>
        if Ascii.eqb c "-" then (true, s')
        else if Ascii.eqb c "+" then (false, s')
        else (false, s)
    | [] => (false, s)
    end in
  let v := atoi_digits 0 s in
  let v := if neg then - v else v in
  if in_int v then Some v else None.

(** ** Effects *)

Inductive pin := PIN_LASER_PWM | PIN_LASER_ARM.
Inductive level := LOW | HIGH.

Inductive event :=
| SerialPrint (s : string)
| SerialPrintln (s : string)
| DigitalWrite (p : pin) (v : level)
| AnalogWrite (p : pin) (v : Z)
| Delay (ms : Z)
| SerialBegin (baud : Z)
| PinMode (p : pin)   (* pinMode(p, OUTPUT) *)
| ParseCommand (line : list ascii).   (* a call of parse_command, with the text of its argument *)

Definition trace := list event.

(** Number of calls of [parse_command] recorded in a trace. *)
Fixpoint dispatches (t : trace) : nat :=
  match t with
  | ParseCommand _ :: t' => S (dispatches t')
  | _ :: t' => dispatches t'
  | [] => O
  end.

(** Number of times the status [line] was written with [Serial.println]. *)
Fixpoint printed (line : string) (t : trace) : nat :=
  match t with
  | SerialPrintln s :: t' =>
      if String.eqb s line then S (printed line t') else printed line t'
  | _ :: t' => printed line t'
  | [] => O
  end.

(** Whether a trace writes the PWM output. *)
Fixpoint writes_pwm (t : trace) : bool :=
  match t with
  | AnalogWrite _ _ :: _ => true
  | _ :: t' => writes_pwm t'
  | [] => false
  end.

(** ** The monad of the sketch's functions *)

Section Monad.
Context {S : Type}.

Definition M (A : Type) : Type := S -> option (A * S * trace).

Definition ret {A} (a : A) : M A := fun st => Some (a, st, []).

Definition bind {A B} (m : M A) (f : A -> M B) : M B := fun st =>
  match m st with
  | None => None
  | Some (a, st1, t1) =>
      match f a st1 with
      | None => None
      | Some (b, st2, t2) => Some (b, st2, t1 ++ t2)
      end
  end.

Definition undefined {A} : M A := fun _ => None.
Definition gets {A} (f : S -> A) : M A := fun st => Some (f st, st, []).
Definition modify (f : S -> S) : M unit := fun st => Some (tt, f st, []).
Definition emit (e : event) : M unit := fun st => Some (tt, st, [e]).
End Monad.

Arguments M : clear implicits.

Declare Scope sketch_scope.
Delimit Scope sketch_scope with sketch.
Notation "x <- m ;; k" := (bind m (fun x => k))
  (at level 100, m at level 99, k at level 200, only parsing) : sketch_scope.
Notation "m ;; k" := (bind m (fun _ => k))
  (at level 100, k at level 200, only parsing) : sketch_scope.
Local Open Scope sketch_scope.

Definition print {S} (s : string) : M S unit := emit (SerialPrint s).
Definition println {S} (s : string) : M S unit := emit (SerialPrintln s).
Definition digitalWrite {S} (p : pin) (v : level) : M S unit := emit (DigitalWrite p v).
Definition analogWrite {S} (p : pin) (v : Z) : M S unit := emit (AnalogWrite p v).
Definition delay {S} (ms : Z) : M S unit := emit (Delay (to_ulong ms)).

(** ** The stepper library *)

Inductive direction := CW | CCW | STOP.

(** The part of CustomStepper the sketch calls.  [stepper_new] is the object
    built by the global constructor call; [run] is given the clock it
    reads. *)
Class CustomStepper (T : Type) := {
  stepper_new : T;
  isDone : T -> bool;
  setDirection : direction -> T -> T;
  rotateDegrees : Z -> T -> T;
  setRPM : Z -> T -> T;
  setSPR : Q -> T -> T;
  run : Z -> T -> T
}.

(** Configuration constants of both variants. *)
Definition STEPPER_SPR : Q := 40757728395 # 10000000.
Definition STEPPER_RPM : Z := 15.
Definition MAX_FOCUS_ROTATION : Z := 1440.
Definition SERIAL_BUFFER_SIZE : Z := 80.
Definition VERSION_STRING : string := "0.1.0".

Definition newline : string := String NL EmptyString.

Definition help_text : string :=
  ("202 Commands:" ++ newline ++
   "202   e           :  emergency stop" ++ newline ++
   "202   d [0..254]  :  set laser duty cycle" ++ newline ++
   "202   f [n]       :  fire laser for [n] milliseconds" ++ newline ++
   "202   p [n]       :  focus by [n] degrees (primary cog)" ++ newline ++
   "202   z           :  zero focus coordinates" ++ newline ++
   "203 OK")%string.

(** Operations on signed integers: no result on overflow. *)
Definition int_neg {S} (n : Z) : M S Z :=
  if in_int (- n) then ret (- n) else undefined.
Definition long_add {S} (a b : Z) : M S Z :=
  if in_long (a + b) then ret (a + b) else undefined.

(** The [abs] macro of the Arduino core: [((x)>0?(x):-(x))]. *)
Definition abs {S} (x : Z) : M S Z :=
  if x >? 0 then ret x else int_neg x.

(** ** The sketch [laser_controller.ino] *)

Module LaserController.

Definition SERIAL_SPEED : Z := 115200.

Section Sketch.
Context {T : Type} `{CustomStepper T}.

(** The globals. *)
Record state := {
  buffer : list ascii;
  buffer_offset : Z;
  overflow_mode : bool;
  stepper : T;
  stepper_run : bool;
  stepper_pos : Z;
  laser_duty_cycle : Z;
  laser_armed : bool
}.

Definition set_buffer (v : list ascii) (st : state) : state :=
  {| buffer := v; buffer_offset := buffer_offset st;
     overflow_mode := overflow_mode st; stepper := stepper st;
     stepper_run := stepper_run st; stepper_pos := stepper_pos st;
     laser_duty_cycle := laser_duty_cycle st; laser_armed := laser_armed st |}.
Definition set_buffer_offset (v : Z) (st : state) : state :=
  {| buffer := buffer st; buffer_offset := v;
     overflow_mode := overflow_mode st; stepper := stepper st;
     stepper_run := stepper_run st; stepper_pos := stepper_pos st;
     laser_duty_cycle := laser_duty_cycle st; laser_armed := laser_armed st |}.
Definition set_overflow_mode (v : bool) (st : state) : state :=
  {| buffer := buffer st; buffer_offset := buffer_offset st;
     overflow_mode := v; stepper := stepper st;
     stepper_run := stepper_run st; stepper_pos := stepper_pos st;
     laser_duty_cycle := laser_duty_cycle st; laser_armed := laser_armed st |}.
Definition set_stepper (v : T) (st : state) : state :=
  {| buffer := buffer st; buffer_offset := buffer_offset st;
     overflow_mode := overflow_mode st; stepper := v;
     stepper_run := stepper_run st; stepper_pos := stepper_pos st;
     laser_duty_cycle := laser_duty_cycle st; laser_armed := laser_armed st |}.
Definition set_stepper_run (v : bool) (st : state) : state :=
  {| buffer := buffer st; buffer_offset := buffer_offset st;
     overflow_mode := overflow_mode st; stepper := stepper st;
     stepper_run := v; stepper_pos := stepper_pos st;
     laser_duty_cycle := laser_duty_cycle st; laser_armed := laser_armed st |}.
Definition set_stepper_pos (v : Z) (st : state) : state :=
  {| buffer := buffer st; buffer_offset := buffer_offset st;
     overflow_mode := overflow_mode st; stepper := stepper st;
     stepper_run := stepper_run st; stepper_pos := v;
     laser_duty_cycle := laser_duty_cycle st; laser_armed := laser_armed st |}.
Definition set_laser_duty_cycle (v : Z) (st : state) : state :=
  {| buffer := buffer st; buffer_offset := buffer_offset st;
     overflow_mode := overflow_mode st; stepper := stepper st;
     stepper_run := stepper_run st; stepper_pos := stepper_pos st;
     laser_duty_cycle := v; laser_armed := laser_armed st |}.
Definition set_laser_armed (v : bool) (st : state) : state :=
  {| buffer := buffer st; buffer_offset := buffer_offset st;
     overflow_mode := overflow_mode st; stepper := stepper st;
     stepper_run := stepper_run st; stepper_pos := stepper_pos st;
     laser_duty_cycle := laser_duty_cycle st; laser_armed := v |}.

(** A method call on the global [stepper] object. *)
Definition call_stepper (f : T -> T) : M state unit :=
  modify (fun st => set_stepper (f (stepper st)) st).

(** The globals as initialised by their declarations. *)
Definition globals : state :=
  {| buffer := replicate (Z.to_nat SERIAL_BUFFER_SIZE) NUL;
     buffer_offset := 0; overflow_mode := false;
     stepper := stepper_new; stepper_run := false; stepper_pos := 0;
     laser_duty_cycle := 0; laser_armed := false |}.

Definition setup : M state unit :=
  emit (SerialBegin SERIAL_SPEED) ;;
  emit (PinMode PIN_LASER_ARM) ;;
  digitalWrite PIN_LASER_ARM LOW ;;
  analogWrite PIN_LASER_PWM 0 ;;
  call_stepper (setRPM STEPPER_RPM) ;;
  call_stepper (setSPR STEPPER_SPR) ;;
  modify (set_buffer (replicate (Z.to_nat SERIAL_BUFFER_SIZE) NUL)) ;;
  print "100 Laser Controller,  v" ;;
  print VERSION_STRING ;;
  println ", <borud@borud.org>".

Definition step_focus (n : Z) : M state unit :=
  a <- abs n ;;
  if a >? MAX_FOCUS_ROTATION then
    print "521 MAXIMUM FOCUS ROTATION IS " ;;
    println (dec MAX_FOCUS_ROTATION)
  else
    (if n >? 0 then
       call_stepper (setDirection CCW) ;;
       call_stepper (rotateDegrees n)
     else
       call_stepper (setDirection CW) ;;
       m <- int_neg n ;;
       call_stepper (rotateDegrees m)) ;;
    print "204 FOCUS " ;;
    println (dec n) ;;
    pos <- gets stepper_pos ;;
    pos' <- long_add pos n ;;
    modify (set_stepper_pos pos') ;;
    modify (set_stepper_run true).

Definition emergency_stop : M state unit :=
  digitalWrite PIN_LASER_ARM LOW ;;
  analogWrite PIN_LASER_PWM 0 ;;
  modify (set_laser_duty_cycle 0) ;;
  modify (set_laser_armed false) ;;
  println "520 LASER OFF (unarmed, duty_cycle = 0" ;;
  s <- gets stepper ;;
  if negb (isDone s) then
    call_stepper (setDirection STOP) ;;
    modify (set_stepper_run false) ;;
    println "521 STEPPER STOPPED, POSITION LOST"
  else ret tt.

Definition step_zero_pos : M state unit :=
  print "209 FOCUS ZEROED, old pos = " ;;
  pos <- gets stepper_pos ;;
  println (dec pos) ;;
  modify (set_stepper_pos 0).

(** The parameter is a [byte]: callers pass [to_byte] of their value. *)
Definition laser_set_duty_cycle (n : Z) : M state unit :=
  modify (set_laser_duty_cycle n) ;;
  print "206 DUTY CYCLE " ;;
  d <- gets laser_duty_cycle ;;
  println (dec d).

Definition laser_fire (n : Z) : M state unit :=
  armed <- gets laser_armed ;;
  if negb armed then
    println "530 LASER UNARMED"
  else
    d <- gets laser_duty_cycle ;;
    analogWrite PIN_LASER_PWM d ;;
    delay n ;;
    analogWrite PIN_LASER_PWM 0 ;;
    print "205 LASER FIRED " ;;
    print (dec n) ;;
    print " ms @ " ;;
    d <- gets laser_duty_cycle ;;
    print (dec d) ;;
    println "/255 duty cycle".

Definition laser_arm : M state unit :=
  digitalWrite PIN_LASER_ARM HIGH ;;
  modify (set_laser_armed true) ;;
  println "207 LASER ARMED".

Definition laser_unarm : M state unit :=
  digitalWrite PIN_LASER_ARM LOW ;;
  modify (set_laser_armed false) ;;
  println "208 LASER UNARMED".

Definition print_help : M state unit := println help_text.

(** [atoi(s+1)]: the C string that starts at the second element. *)
Definition atoi_arg (s : list ascii) : M state Z :=
  match cstring (drop 1 s) with
  | Some a => match atoi a with Some v => ret v | None => undefined end
  | None => undefined
  end.

Definition parse_command (s : list ascii) : M state unit :=
  match s !! O with
  | None => undefined
  | Some c =>
      if Ascii.eqb c "e" then emergency_stop
      else if Ascii.eqb c "a" then laser_arm
      else if Ascii.eqb c "u" then laser_unarm
      else if Ascii.eqb c "d" then v <- atoi_arg s ;; laser_set_duty_cycle (to_byte v)
      else if Ascii.eqb c "f" then v <- atoi_arg s ;; laser_fire v
      else if Ascii.eqb c "p" then v <- atoi_arg s ;; step_focus v
      else if Ascii.eqb c "z" then step_zero_pos
      else if Ascii.eqb c "h" then print_help
      else println "501 UNKNOWN COMMAND"
  end.

(** [buffer[buffer_offset] = c] and the read of [buffer[buffer_offset]]:
    undefined outside the array. *)
Definition buffer_store (c : ascii) : M state unit :=
  i <- gets buffer_offset ;;
  b <- gets buffer ;;
  if (0 <=? i) && (i <? Z.of_nat (length b)) then
    modify (set_buffer (<[Z.to_nat i := c]> b))
  else undefined.

Definition buffer_load : M state ascii :=
  i <- gets buffer_offset ;;
  b <- gets buffer ;;
  if 0 <=? i then
    match b !! Z.to_nat i with
    | Some c => ret c
    | None => undefined
    end
  else undefined.

(** How one round of the [while] loop of [read_serial] ends: with a
    [return], or by going round again with the current [loop_count]. *)
Inductive flow := Return | Continue (loop_count : Z).

(** The body of the loop for the byte [c] that [Serial.read()] gives. *)
Definition read_serial_body (loop_count : Z) (c : ascii) : M state flow :=
  buffer_store c ;;
  ovf <- gets overflow_mode ;;
  r <- (if ovf then
          let loop_count := loop_count + 1 in
          b <- buffer_load ;;
          if Ascii.eqb NL b then
            modify (set_overflow_mode false) ;;
            ret Return
          else if loop_count =? SERIAL_BUFFER_SIZE then
            println "510 OVERFLOW" ;;
            ret Return
          else ret (Continue loop_count)
        else ret (Continue loop_count)) ;;
  match r with
  | Return => ret Return
  | Continue loop_count =>
      b <- buffer_load ;;
      if Ascii.eqb NL b then
        buffer_store NUL ;;
        modify (set_buffer_offset 0) ;;
        s <- gets buffer ;;
        emit (ParseCommand (text s)) ;;
        parse_command s ;;
        ret Return
      else
        modify (fun st => set_buffer_offset (to_byte (buffer_offset st + 1)) st) ;;
        i <- gets buffer_offset ;;
        if SERIAL_BUFFER_SIZE =? i then
          modify (set_buffer_offset 0) ;;
          modify (set_overflow_mode true) ;;
          println "510 OVERFLOW" ;;
          ret Return
        else ret (Continue loop_count)
  end.

(** The [while (Serial.available())] loop over the bytes waiting in the
    receive queue; the result is what is left in the queue. *)
Fixpoint read_serial_loop (loop_count : Z) (input : list ascii)
  : M state (list ascii) :=
  match input with
  | [] => ret []
  | c :: rest =>
      r <- read_serial_body loop_count c ;;
      match r with
      | Return => ret rest
      | Continue loop_count => read_serial_loop loop_count rest
      end
  end.

Definition read_serial (input : list ascii) : M state (list ascii) :=
  read_serial_loop 0 input.

(** One iteration of [loop()], with the clock [now] and the bytes
    [input] waiting in the receive queue. *)
Definition loop (now : Z) (input : list ascii) : M state (list ascii) :=
  rest <- read_serial input ;;
  s <- gets stepper ;;
  (if negb (isDone s) then
     call_stepper (run now) ;;
     s' <- gets stepper ;;
     if isDone s' then
       modify (set_stepper_run false) ;;
       print "201 FOCUS DONE, pos = " ;;
       pos <- gets stepper_pos ;;
       println (dec pos)
     else ret tt
   else ret tt) ;;
  ret rest.

End Sketch.
End LaserController.

(** ** A concrete stepper

    An instance of the stepper interface to run the sketch on: a rotation
    request of [n] degrees is pending until [run] has been called [n] times
    (at least once), and [STOP] only records the direction. *)
Module ModelStepper.
Record t := { dir : direction; togo : Z; done : bool }.

Definition rotate (n : Z) (s : t) : t :=
  {| dir := dir s; togo := n; done := false |}.
Definition turn (d : direction) (s : t) : t :=
  {| dir := d; togo := togo s; done := done s |}.
Definition advance (now : Z) (s : t) : t :=
  if done s then s
  else if togo s <=? 1 then {| dir := dir s; togo := 0; done := true |}
  else {| dir := dir s; togo := togo s - 1; done := false |}.

#[global] Instance model : CustomStepper t :=
  {| stepper_new := {| dir := CW; togo := 0; done := true |};
     isDone := done;
     setDirection := turn;
     rotateDegrees := rotate;
     setRPM := fun _ s => s;
     setSPR := fun _ s => s;
     run := advance |}.
End ModelStepper.


(** ** The second variant of the sketch

    The variant without laser support; only the globals and the one
    operation that differs in what it reports are needed below. *)
Module Part000.
Section Sketch.
Context {T : Type} `{CustomStepper T}.

Record state := {
  buffer : list ascii;
  buffer_offset : Z;
  overflow_mode : bool;
  stepper : T;
  stepper_run : bool;
  stepper_pos : Z;
  laser_duty_cycle : Z
}.

Definition set_stepper_pos (v : Z) (st : state) : state :=
  {| buffer := buffer st; buffer_offset := buffer_offset st;
     overflow_mode := overflow_mode st; stepper := stepper st;
     stepper_run := stepper_run st; stepper_pos := v;
     laser_duty_cycle := laser_duty_cycle st |}.

Definition globals : state :=
  {| buffer := replicate (Z.to_nat SERIAL_BUFFER_SIZE) NUL;
     buffer_offset := 0; overflow_mode := false;
     stepper := stepper_new; stepper_run := false; stepper_pos := 0;
     laser_duty_cycle := 0 |}.

Definition step_zero_pos : M state unit :=
  modify (set_stepper_pos 0) ;;
  print "201 FOCUS pos = " ;;
  pos <- gets stepper_pos ;;
  println (dec pos).

End Sketch.
End Part000.

(** The other functions of the second variant.  The line reader and
    [step_focus] are written as in [laser_controller.ino]; the emergency
    stop only stops the stepper, and the duty cycle and fire commands are
    accepted and ignored. *)
Module Variant.
Import Part000.
Section Sketch.
Context {T : Type} `{CustomStepper T}.
Local Abbreviation state := (@Part000.state T).

Definition set_buffer (v : list ascii) (st : state) : state :=
  {| buffer := v; buffer_offset := buffer_offset st;
     overflow_mode := overflow_mode st; stepper := stepper st;
     stepper_run := stepper_run st; stepper_pos := stepper_pos st;
     laser_duty_cycle := laser_duty_cycle st |}.
Definition set_buffer_offset (v : Z) (st : state) : state :=
  {| buffer := buffer st; buffer_offset := v;
     overflow_mode := overflow_mode st; stepper := stepper st;
     stepper_run := stepper_run st; stepper_pos := stepper_pos st;
     laser_duty_cycle := laser_duty_cycle st |}.
Definition set_overflow_mode (v : bool) (st : state) : state :=
  {| buffer := buffer st; buffer_offset := buffer_offset st;
     overflow_mode := v; stepper := stepper st;
     stepper_run := stepper_run st; stepper_pos := stepper_pos st;
     laser_duty_cycle := laser_duty_cycle st |}.
Definition set_stepper (v : T) (st : state) : state :=
  {| buffer := buffer st; buffer_offset := buffer_offset st;
     overflow_mode := overflow_mode st; stepper := v;
     stepper_run := stepper_run st; stepper_pos := stepper_pos st;
     laser_duty_cycle := laser_duty_cycle st |}.
Definition set_stepper_run (v : bool) (st : state) : state :=
  {| buffer := buffer st; buffer_offset := buffer_offset st;
     overflow_mode := overflow_mode st; stepper := stepper st;
     stepper_run := v; stepper_pos := stepper_pos st;
     laser_duty_cycle := laser_duty_cycle st |}.

Definition call_stepper (f : T -> T) : M state unit :=
  modify (fun st => set_stepper (f (stepper st)) st).

Definition step_focus (n : Z) : M state unit :=
  a <- abs n ;;
  if a >? MAX_FOCUS_ROTATION then
    print "521 MAXIMUM FOCUS ROTATION IS " ;;
    println (dec MAX_FOCUS_ROTATION)
  else
    (if n >? 0 then
       call_stepper (setDirection CCW) ;;
       call_stepper (rotateDegrees n)
     else
       call_stepper (setDirection CW) ;;
       m <- int_neg n ;;
       call_stepper (rotateDegrees m)) ;;
    print "204 FOCUS " ;;
    println (dec n) ;;
    pos <- gets stepper_pos ;;
    pos' <- long_add pos n ;;
    modify (set_stepper_pos pos') ;;
    modify (set_stepper_run true).

Definition emergency_stop : M state unit :=
  s <- gets stepper ;;
  if negb (isDone s) then
    call_stepper (setDirection STOP) ;;
    modify (set_stepper_run false) ;;
    println "520 STEPPER STOPPED, POSITION LOST"
  else ret tt.

Definition laser_on : M state unit := ret tt.

Definition print_help : M state unit := println help_text.

Definition atoi_arg (s : list ascii) : M state Z :=
  match cstring (drop 1 s) with
  | Some a => match atoi a with Some v => ret v | None => undefined end
  | None => undefined
  end.

Definition parse_command (s : list ascii) : M state unit :=
  match s !! O with
  | None => undefined
  | Some c =>
      if Ascii.eqb c "e" then emergency_stop
      else if Ascii.eqb c "d" then ret tt
      else if Ascii.eqb c "f" then ret tt
      else if Ascii.eqb c "p" then v <- atoi_arg s ;; step_focus v
      else if Ascii.eqb c "z" then step_zero_pos
      else if Ascii.eqb c "h" then print_help
      else println "501 UNKNOWN COMMAND"
  end.

Definition buffer_store (c : ascii) : M state unit :=
  i <- gets buffer_offset ;;
  b <- gets buffer ;;
  if (0 <=? i) && (i <? Z.of_nat (length b)) then
    modify (set_buffer (<[Z.to_nat i := c]> b))
  else undefined.

Definition buffer_load : M state ascii :=
  i <- gets buffer_offset ;;
  b <- gets buffer ;;
  if 0 <=? i then
    match b !! Z.to_nat i with
    | Some c => ret c
    | None => undefined
    end
  else undefined.

Inductive flow := Return | Continue (loop_count : Z).

Definition read_serial_body (loop_count : Z) (c : ascii) : M state flow :=
  buffer_store c ;;
  ovf <- gets overflow_mode ;;
  r <- (if ovf then
          let loop_count := loop_count + 1 in
          b <- buffer_load ;;
          if Ascii.eqb NL b then
            modify (set_overflow_mode false) ;;
            ret Return
          else if loop_count =? SERIAL_BUFFER_SIZE then
            println "510 OVERFLOW" ;;
            ret Return
          else ret (Continue loop_count)
        else ret (Continue loop_count)) ;;
  match r with
  | Return => ret Return
  | Continue loop_count =>
      b <- buffer_load ;;
      if Ascii.eqb NL b then
        buffer_store NUL ;;
        modify (set_buffer_offset 0) ;;
        s <- gets buffer ;;
        emit (ParseCommand (text s)) ;;
        parse_command s ;;
        ret Return
      else
        modify (fun st => set_buffer_offset (to_byte (buffer_offset st + 1)) st) ;;
        i <- gets buffer_offset ;;
        if SERIAL_BUFFER_SIZE =? i then
          modify (set_buffer_offset 0) ;;
          modify (set_overflow_mode true) ;;
          println "510 OVERFLOW" ;;
          ret Return
        else ret (Continue loop_count)
  end.

Fixpoint read_serial_loop (loop_count : Z) (input : list ascii)
  : M state (list ascii) :=
  match input with
  | [] => ret []
  | c :: rest =>
      r <- read_serial_body loop_count c ;;
      match r with
      | Return => ret rest
      | Continue loop_count => read_serial_loop loop_count rest
      end
  end.

Definition read_serial (input : list ascii) : M state (list ascii) :=
  read_serial_loop 0 input.

Definition loop (now : Z) (input : list ascii) : M state (list ascii) :=
  rest <- read_serial input ;;
  s <- gets stepper ;;
  (if negb (isDone s) then
     call_stepper (run now) ;;
     s' <- gets stepper ;;
     if isDone s' then
       modify (set_stepper_run false) ;;
       print "201 FOCUS DONE, pos = " ;;
       pos <- gets stepper_pos ;;
       println (dec pos)
     else ret tt
   else ret tt) ;;
  ret rest.

End Sketch.
End Variant.

Arguments dec : simpl never.
Arguments to_byte : simpl never.
Arguments to_ulong : simpl never.

(** ** Notions used in the statements *)

Import LaserController.

(** The bytes of a string literal. *)
Definition bytes (s : string) : list ascii := list_ascii_of_string s.

(** The case labels of the [switch] of [parse_command]. *)
Definition opcodes : list ascii :=
  ["e"; "a"; "u"; "d"; "f"; "p"; "z"; "h"]%char.

Definition recognized (c : ascii) : bool := existsb (Ascii.eqb c) opcodes.

(** The buffer [cs] written into the array [b] from index [i] on. *)
Fixpoint fill (i : nat) (cs : list ascii) (b : list ascii) : list ascii :=
  match cs with
  | [] => b
  | c :: cs' => fill (S i) cs' (<[i := c]> b)
  end.

Section Notions.
Context {T : Type} `{CustomStepper T}.
Implicit Types st : @state T.

(** The array has its declared size and the cursor is inside it. *)
Definition buffer_ok st : Prop :=
  length (buffer st) = Z.to_nat SERIAL_BUFFER_SIZE
  /\ 0 <= buffer_offset st < SERIAL_BUFFER_SIZE.

(** The motion flag is only set while the stepper has work left. *)
Definition motion_ok st : Prop :=
  isDone (stepper st) = true -> stepper_run st = false.

(** The globals of the device controller, as opposed to those of the line
    reader. *)
Definition device st : bool * Z * T * bool * Z :=
  (laser_armed st, laser_duty_cycle st, stepper st, stepper_run st,
   stepper_pos st).

(** The state in which [read_serial] calls [parse_command]: the line is
    terminated at the cursor and the cursor is back at 0. *)
Definition at_dispatch st : state :=
  set_buffer_offset 0
    (set_buffer (<[Z.to_nat (buffer_offset st) := NUL]> (buffer st)) st).

(** The states of the running sketch: the one [setup] leaves, those after
    a call of [read_serial] or a whole iteration of [loop] with any bytes in
    the receive queue, and those in which a command is entered. *)
Inductive reachable : state -> Prop :=
| reach_setup st t :
    setup globals = Some (tt, st, t) -> reachable st
| reach_read_serial st input rest st' t :
    reachable st -> read_serial input st = Some (rest, st', t) ->
    reachable st'
| reach_loop st now input rest st' t :
    reachable st -> loop now input st = Some (rest, st', t) ->
    reachable st'
| reach_dispatch st :
    reachable st -> overflow_mode st = false -> reachable (at_dispatch st).

(** Successive calls of [read_serial], one per iteration of [loop], on a
    receive queue that already holds [input], until the queue is empty. *)
Fixpoint serve_calls (calls : nat) (input : list ascii) : M state (list ascii) :=
  match calls, input with
  | O, _ => ret input
  | _, [] => ret []
  | Datatypes.S calls', _ =>
      rest <- read_serial input ;;
      serve_calls calls' rest
  end.

(** Every call that returns has read a byte, so [length input] calls are
    enough. *)
Definition serve (input : list ascii) : M state (list ascii) :=
  serve_calls (length input) input.

End Notions.

(** ** Concrete states and inputs, on the concrete stepper *)

(** The globals at start-up. *)
Definition start : @state ModelStepper.t := globals.

(** Armed, with duty cycle 100. *)
Definition armed100 : @state ModelStepper.t :=
  set_laser_armed true (set_laser_duty_cycle 100 start).

(** In overflow mode, with the cursor back at 0. *)
Definition overflowing : @state ModelStepper.t := set_overflow_mode true start.

(** Armed, with a rotation of 90 degrees under way: where the commands
    [a] and [p90] lead from start-up. *)
Definition armed_and_moving : @state ModelStepper.t :=
  set_stepper_run true
    (set_stepper_pos 90
       (set_stepper (rotateDegrees 90 (setDirection CCW (stepper start)))
          (set_laser_armed true
             (set_buffer (fill 0 (list_ascii_of_string "p90") (buffer start))
                start)))).

(** [n] bytes [x]. *)
Definition xs (n : nat) : list ascii := replicate n "x"%char.

(** The second variant with the focus at 5 degrees. *)
Definition variant_at_5 : @Part000.state ModelStepper.t :=
  Part000.set_stepper_pos 5 Part000.globals.

(** ** Further notions *)

(** The values written to the PWM output, in order. *)
Fixpoint pwm_writes (t : trace) : list Z :=
  match t with
  | AnalogWrite PIN_LASER_PWM v :: t' => v :: pwm_writes t'
  | _ :: t' => pwm_writes t'
  | [] => []
  end.

(** The level of the arm pin and the value of the PWM output after the
    writes of a trace, from the levels [o] before it. *)
Fixpoint outputs (t : trace) (o : level * Z) : level * Z :=
  match t with
  | DigitalWrite PIN_LASER_ARM v :: t' => outputs t' (v, snd o)
  | AnalogWrite PIN_LASER_PWM v :: t' => outputs t' (fst o, v)
  | _ :: t' => outputs t' o
  | [] => o
  end.

(** The text written to the serial line by a trace; [Serial.println] ends
    the line with CR LF. *)
Fixpoint serial_text (t : trace) : string :=
  match t with
  | SerialPrint s :: t' => (s ++ serial_text t')%string
  | SerialPrintln s :: t' =>
      (s ++ String "013" (String "010" (serial_text t')))%string
  | _ :: t' => serial_text t'
  | [] => EmptyString
  end.

(** Whether an argument text starts like a number for [atoi]: white space,
    a sign or a digit. *)
Definition starts_number (a : list ascii) : bool :=
  match a with
  | [] => false
  | c :: _ =>
      isspace c || Ascii.eqb c "-" || Ascii.eqb c "+"
      || match digit_of c with Some _ => true | None => false end
  end.

(** The status codes a command of [laser_controller.ino] can start its
    answer with, and those among them that refuse the command. *)
Definition answer_codes : list string :=
  ["520 "; "207 "; "208 "; "206 "; "530 "; "205 "; "521 "; "204 "; "209 ";
   "202 "; "501 "]%string.

Definition refusal_codes : list string := ["530 "; "521 "; "501 "]%string.

Section FurtherNotions.
Context {T : Type} `{CustomStepper T}.

(** The outputs agree with the globals: the arm pin is high exactly when
    the laser is armed, and the PWM output is at rest. *)
Definition outputs_agree (o : level * Z) (st : @state T) : Prop :=
  snd o = 0 /\ (fst o = HIGH <-> laser_armed st = true).

(** The values of the globals fit their C types. *)
Definition in_range (st : @state T) : Prop :=
  0 <= laser_duty_cycle st <= 255 /\ in_long (stepper_pos st) = true.

(** The globals the two variants share. *)
Definition shared (st : @state T) : list ascii * Z * bool * T * bool * Z :=
  (buffer st, buffer_offset st, overflow_mode st, stepper st,
   stepper_run st, stepper_pos st).

Definition shared_variant (st : @Part000.state T)
  : list ascii * Z * bool * T * bool * Z :=
  (Part000.buffer st, Part000.buffer_offset st, Part000.overflow_mode st,
   Part000.stepper st, Part000.stepper_run st, Part000.stepper_pos st).

End FurtherNotions.

(** The start-up state once the line [f50] has been dispatched. *)
Definition after_f50 : @state ModelStepper.t :=
  set_buffer (fill 0 (list_ascii_of_string "f50") (buffer start)) start.

(** * Properties *)

(** ** Reasoning about the monad *)

Section MonadLaws.
Context {S : Type}.

Lemma bind_ret {A B} (a : A) (k : A -> M S B) (st : S) :
  bind (ret a) k st = k a st.
Proof. unfold bind, ret. destruct (k a st) as [[[b s] t]|]; reflexivity. Qed.

Lemma bind_gets {A B} (f : S -> A) (k : A -> M S B) (st : S) :
  bind (gets f) k st = k (f st) st.
Proof. unfold bind, gets. destruct (k (f st) st) as [[[b s] t]|]; reflexivity. Qed.

Lemma bind_modify {B} (f : S -> S) (k : unit -> M S B) (st : S) :
  bind (modify f) k st = k tt (f st).
Proof. unfold bind, modify. destruct (k tt (f st)) as [[[b s] t]|]; reflexivity. Qed.

Lemma bind_emit {B} (e : event) (k : unit -> M S B) (st : S) :
  bind (emit e) k st =
    match k tt st with
    | Some (b, s, t) => Some (b, s, e :: t)
    | None => None
    end.
Proof. reflexivity. Qed.

Lemma bind_undefined {A B} (k : A -> M S B) (st : S) :
  bind undefined k st = None.
Proof. reflexivity. Qed.

Lemma bind_assoc {A B C} (m : M S A) (f : A -> M S B) (g : B -> M S C) (st : S) :
  bind (bind m f) g st = bind m (fun a => bind (f a) g) st.
Proof.
  unfold bind. destruct (m st) as [[[a s1] t1]|]; [|reflexivity].
  destruct (f a s1) as [[[b s2] t2]|]; [|reflexivity].
  destruct (g b s2) as [[[c s3] t3]|]; [|reflexivity].
  now rewrite app_assoc.
Qed.

End MonadLaws.

(** One step of symbolic execution of a computation applied to a state. *)
Ltac exec1 :=
  first [ rewrite bind_assoc | rewrite bind_ret | rewrite bind_gets
        | rewrite bind_modify | rewrite bind_emit | rewrite bind_undefined ];
  cbv beta.

Ltac exec :=
  unfold print, println, digitalWrite, analogWrite, delay, call_stepper;
  repeat exec1.

(** Case analysis on every test a computation makes, for a hypothesis
    [m st = Some _] whose computation has been unfolded. *)
Ltac branches Hrun :=
  repeat match type of Hrun with
         | context [if ?b then _ else _] => destruct b eqn:?
         | context [match ?x with _ => _ end] => destruct x eqn:?
         end;
  try discriminate.

(** Unfolding of the monad and of the primitives. *)
Ltac sketch :=
  cbv [bind ret gets modify emit undefined print println digitalWrite
       analogWrite delay call_stepper];
  cbn [fst snd app].

Ltac sketch_in Hrun :=
  cbv [bind ret gets modify emit undefined print println digitalWrite
       analogWrite delay call_stepper] in Hrun;
  cbn [fst snd app] in Hrun.

Section DeviceOperations.
Context {T : Type} `{CustomStepper T}.
Implicit Types st : @state T.

(** C1.  Whatever the duration [n] (zero and negative included),
    [laser_fire n] called while the laser is unarmed only writes the
    status line 530 LASER UNARMED: every global is left as it was and the
    PWM output is not written. *)
Theorem laser_fire_unarmed (n : Z) st :
  laser_armed st = false ->
  laser_fire n st = Some (tt, st, [SerialPrintln "530 LASER UNARMED"])
  /\ writes_pwm [SerialPrintln "530 LASER UNARMED"] = false.
Proof.
  intros Harmed. split; [|reflexivity].
  unfold laser_fire. sketch. now rewrite Harmed.
Qed.

(** C10.  Whatever the duration [n], [laser_fire n] called while the laser
    is armed leaves every global as it was (armed flag, duty cycle,
    position and motion flag included): it drives the PWM output at the
    duty cycle, waits, zeroes the output and writes the 205 status, so the
    laser is still armed afterwards. *)
Theorem laser_fire_armed (n : Z) st :
  laser_armed st = true ->
  laser_fire n st =
    Some (tt, st,
          [AnalogWrite PIN_LASER_PWM (laser_duty_cycle st);
           Delay (to_ulong n);
           AnalogWrite PIN_LASER_PWM 0;
           SerialPrint "205 LASER FIRED ";
           SerialPrint (dec n);
           SerialPrint " ms @ ";
           SerialPrint (dec (laser_duty_cycle st));
           SerialPrintln "/255 duty cycle"]).
Proof.
  intros Harmed. unfold laser_fire. sketch. now rewrite Harmed.
Qed.

(** C5.  For an [int] argument [n] other than [INT_MIN]: when [|n|]
    exceeds 1440 [step_focus n] only writes the 521 status and leaves every
    global, the position included, as it was; otherwise (the new position
    fitting a [long]) it sets the direction from the sign of [n] (counter
    clockwise for positive [n], clockwise otherwise), requests a rotation
    of [|n|] degrees, writes the 204 status carrying [n], adds [n] to the
    position at once and sets the motion flag. *)
Theorem step_focus_bound_and_position (n : Z) st :
  INT_MIN < n ->
  (MAX_FOCUS_ROTATION < Z.abs n ->
     step_focus n st =
       Some (tt, st,
             [SerialPrint "521 MAXIMUM FOCUS ROTATION IS ";
              SerialPrintln "1440"]))
  /\
  (Z.abs n <= MAX_FOCUS_ROTATION ->
   in_long (stepper_pos st + n) = true ->
     step_focus n st =
       Some (tt,
             set_stepper_run true
               (set_stepper_pos (stepper_pos st + n)
                  (set_stepper
                     (rotateDegrees (Z.abs n)
                        (setDirection (if n >? 0 then CCW else CW)
                           (stepper st)))
                     st)),
             [SerialPrint "204 FOCUS "; SerialPrintln (dec n)])).
Proof.
  intros Hn.
  assert (Habs : forall st0 : @state T, abs n st0 = Some (Z.abs n, st0, [])).
  { intros st0. unfold abs, int_neg, in_int, INT_MIN, INT_MAX in *.
    destruct (Z.gtb_spec n 0) as [Hpos|Hneg].
    - rewrite Z.abs_eq by lia. reflexivity.
    - rewrite Z.abs_neq by lia.
      replace ((-32768 <=? - n) && (- n <=? 32767)) with true; [reflexivity|].
      symmetry. apply andb_true_iff. split; apply Z.leb_le; lia. }
  split.
  - intros Hbig. unfold step_focus, bind. rewrite Habs.
    replace (Z.abs n >? MAX_FOCUS_ROTATION) with true
      by (symmetry; apply Z.gtb_lt; lia).
    reflexivity.
  - intros Hsmall Hpos. unfold step_focus, bind at 1. rewrite Habs.
    replace (Z.abs n >? MAX_FOCUS_ROTATION) with false
      by (symmetry; rewrite Z.gtb_ltb; apply Z.ltb_ge; lia).
    unfold long_add. sketch.
    destruct (Z.gtb_spec n 0) as [Hgt|Hle].
    + rewrite Z.abs_eq by lia. cbn. rewrite Hpos. reflexivity.
    + unfold int_neg, in_int, INT_MIN, INT_MAX in *.
      replace ((-32768 <=? - n) && (- n <=? 32767)) with true
        by (symmetry; apply andb_true_iff; split; apply Z.leb_le; lia).
      rewrite Z.abs_neq by lia. cbn. rewrite Hpos. reflexivity.
Qed.

Lemma parse_command_unknown (s : list ascii) (c : ascii) st :
  s !! O = Some c ->
  recognized c = false ->
  parse_command s st = Some (tt, st, [SerialPrintln "501 UNKNOWN COMMAND"]).
Proof.
  intros Hs Hc. unfold parse_command. rewrite Hs.
  unfold recognized, opcodes in Hc. cbn [existsb] in Hc.
  repeat (apply orb_false_elim in Hc; destruct Hc as [-> Hc]).
  reflexivity.
Qed.

(** The duty cycle command: what [parse_command] does with a line whose
    opcode is [d] and whose argument [atoi] reads as [n]. *)
Lemma parse_command_duty (s a : list ascii) (n : Z) st :
  s !! O = Some "d"%char ->
  cstring (drop 1 s) = Some a ->
  atoi a = Some n ->
  parse_command s st =
    Some (tt, set_laser_duty_cycle (to_byte n) st,
          [SerialPrint "206 DUTY CYCLE "; SerialPrintln (dec (to_byte n))]).
Proof.
  intros Hs Ha Hn. unfold parse_command. rewrite Hs. cbn [Ascii.eqb Bool.eqb].
  unfold atoi_arg. rewrite Ha, Hn. reflexivity.
Qed.

(** C6.  [step_zero_pos] sets the position to 0 whatever the motion flag
    says.  In [laser_controller.ino] the 209 status is written first and
    carries the position before the reset; in the second variant the status
    (201) is written after the reset and carries the new position, 0. *)
Theorem step_zero_pos_resets_and_reports :
  (forall st : @state T,
     step_zero_pos st =
       Some (tt, set_stepper_pos 0 st,
             [SerialPrint "209 FOCUS ZEROED, old pos = ";
              SerialPrintln (dec (stepper_pos st))]))
  /\
  (forall st : @Part000.state T,
     Part000.step_zero_pos st =
       Some (tt, Part000.set_stepper_pos 0 st,
             [SerialPrint "201 FOCUS pos = "; SerialPrintln "0"])).
Proof. split; intros st; reflexivity. Qed.

(** C7.  The argument [n] of the duty cycle command is converted to a
    [byte], that is reduced modulo 256, and not checked against the range
    0..254 in any other way; the result, which is [n] itself when
    [0 <= n <= 255], is stored in [laser_duty_cycle] and the 206 status
    carries the stored value. *)
Theorem duty_cycle_stored_modulo_256 (s a : list ascii) (n : Z) st :
  s !! O = Some "d"%char ->
  cstring (drop 1 s) = Some a ->
  atoi a = Some n ->
  exists st',
    parse_command s st =
      Some (tt, st',
            [SerialPrint "206 DUTY CYCLE ";
             SerialPrintln (dec (laser_duty_cycle st'))])
    /\ st' = set_laser_duty_cycle (n mod 256) st
    /\ laser_duty_cycle st' = n mod 256
    /\ (0 <= n <= 255 -> laser_duty_cycle st' = n).
Proof.
  intros Hs Ha Hn. exists (set_laser_duty_cycle (n mod 256) st).
  split; [exact (parse_command_duty s a n st Hs Ha Hn)|].
  split; [reflexivity|]. split; [reflexivity|].
  intros Hrange. cbn. apply Z.mod_small. lia.
Qed.

End DeviceOperations.


(** ** Frame properties of the commands *)

Section Commands.
Context {T : Type} `{CustomStepper T}.
Implicit Types st : @state T.

Lemma atoi_arg_pure (s : list ascii) (v : Z) st st' (t : trace) :
  atoi_arg s st = Some (v, st', t) -> st' = st /\ t = [].
Proof.
  unfold atoi_arg, ret, undefined.
  destruct (cstring (drop 1 s)) as [a|]; [|discriminate].
  destruct (atoi a); [|discriminate].
  intros Hrun. now inversion Hrun.
Qed.

End Commands.

Ltac pure_args :=
  repeat match goal with
         | Harg : atoi_arg _ _ = Some _ |- _ =>
             apply atoi_arg_pure in Harg; destruct Harg as [-> ->]
         end.

Section CommandFrame.
Context {T : Type} `{CustomStepper T}.
Implicit Types st : @state T.

Lemma parse_command_frame (s : list ascii) st st' (t : trace) :
  parse_command s st = Some (tt, st', t) ->
  dispatches t = O
  /\ buffer st' = buffer st
  /\ buffer_offset st' = buffer_offset st
  /\ overflow_mode st' = overflow_mode st.
Proof.
  intros Hrun.
  unfold parse_command, emergency_stop, laser_arm, laser_unarm,
    laser_set_duty_cycle, laser_fire, step_focus, step_zero_pos, print_help,
    abs, int_neg, long_add in Hrun.
  sketch_in Hrun. branches Hrun.
  all: pure_args; inversion Hrun; subst; cbn; auto.
Qed.

End CommandFrame.

(** ** The line reader *)

Section LineReader.
Context {T : Type} `{CustomStepper T}.
Implicit Types st : @state T.

Lemma eqb_NL_false (c : ascii) : c <> NL -> Ascii.eqb NL c = false.
Proof. intros Hc. apply Ascii.eqb_neq. congruence. Qed.

Lemma in_buffer st :
  buffer_ok st ->
  (0 <=? buffer_offset st) && (buffer_offset st <? Z.of_nat (length (buffer st))) = true
  /\ (0 <=? buffer_offset st) = true
  /\ (Z.to_nat (buffer_offset st) < length (buffer st))%nat.
Proof.
  intros [Hlen Hoff]. unfold SERIAL_BUFFER_SIZE in *. rewrite Hlen.
  repeat split; [apply andb_true_iff; split|..];
    first [apply Z.leb_le | apply Z.ltb_lt | idtac]; lia.
Qed.

(** What [buffer[buffer_offset] = c] followed by a read of the same element
    gives. *)
Lemma store_then (c : ascii) {A} (k : unit -> M state A) st :
  buffer_ok st ->
  bind (buffer_store c) k st =
    k tt (set_buffer (<[Z.to_nat (buffer_offset st) := c]> (buffer st)) st).
Proof.
  intros Hok. destruct (in_buffer st Hok) as (Hin & _ & _).
  unfold buffer_store. exec. rewrite Hin. now exec.
Qed.

Lemma load_then {A} (k : ascii -> M state A) (c : ascii) st :
  0 <= buffer_offset st ->
  buffer st !! Z.to_nat (buffer_offset st) = Some c ->
  bind buffer_load k st = k c st.
Proof.
  intros Hoff Hc. unfold buffer_load. exec.
  replace (0 <=? buffer_offset st) with true by (symmetry; apply Z.leb_le; lia).
  rewrite Hc. now exec.
Qed.

Lemma load_stored {A} (k : ascii -> M state A) (c : ascii) st :
  buffer_ok st ->
  bind buffer_load k
    (set_buffer (<[Z.to_nat (buffer_offset st) := c]> (buffer st)) st) =
  k c (set_buffer (<[Z.to_nat (buffer_offset st) := c]> (buffer st)) st).
Proof.
  intros Hok. destruct (in_buffer st Hok) as (_ & _ & Hlt).
  apply load_then; cbn; [apply Hok|].
  now apply list_lookup_insert_eq.
Qed.

Lemma next_offset st :
  buffer_ok st -> to_byte (buffer_offset st + 1) = buffer_offset st + 1.
Proof.
  intros [_ Hoff]. unfold to_byte, SERIAL_BUFFER_SIZE in *.
  apply Z.mod_small. lia.
Qed.

(** The five ways through the body of the loop. *)

Lemma body_normal_char (lc : Z) (c : ascii) st :
  overflow_mode st = false -> c <> NL -> buffer_ok st ->
  buffer_offset st + 1 < SERIAL_BUFFER_SIZE ->
  read_serial_body lc c st =
    Some (Continue lc,
          set_buffer_offset (buffer_offset st + 1)
            (set_buffer (<[Z.to_nat (buffer_offset st) := c]> (buffer st)) st),
          []).
Proof.
  intros Hovf Hc Hok Hroom.
  unfold read_serial_body. rewrite store_then by assumption.
  exec. cbn [overflow_mode set_buffer]. rewrite Hovf. exec.
  rewrite load_stored by assumption. rewrite (eqb_NL_false c Hc).
  exec. cbn [buffer_offset set_buffer set_buffer_offset].
  rewrite next_offset by assumption.
  replace (SERIAL_BUFFER_SIZE =? buffer_offset st + 1) with false
    by (symmetry; apply Z.eqb_neq; lia).
  reflexivity.
Qed.

Lemma body_normal_full (lc : Z) (c : ascii) st :
  overflow_mode st = false -> c <> NL -> buffer_ok st ->
  buffer_offset st + 1 = SERIAL_BUFFER_SIZE ->
  read_serial_body lc c st =
    Some (Return,
          set_overflow_mode true
            (set_buffer_offset 0
               (set_buffer (<[Z.to_nat (buffer_offset st) := c]> (buffer st)) st)),
          [SerialPrintln "510 OVERFLOW"]).
Proof.
  intros Hovf Hc Hok Hfull.
  unfold read_serial_body. rewrite store_then by assumption.
  exec. cbn [overflow_mode set_buffer]. rewrite Hovf. exec.
  rewrite load_stored by assumption. rewrite (eqb_NL_false c Hc).
  exec. cbn [buffer_offset set_buffer set_buffer_offset].
  rewrite next_offset by assumption. rewrite Hfull, Z.eqb_refl.
  now exec.
Qed.

Lemma body_normal_newline (lc : Z) st :
  overflow_mode st = false -> buffer_ok st ->
  read_serial_body lc NL st =
    match parse_command (buffer (at_dispatch st)) (at_dispatch st) with
    | Some (_, st', t) =>
        Some (Return, st', ParseCommand (text (buffer (at_dispatch st))) :: t)
    | None => None
    end.
Proof.
  intros Hovf Hok.
  assert (Hok' : buffer_ok
            (set_buffer (<[Z.to_nat (buffer_offset st) := NL]> (buffer st)) st)).
  { destruct Hok as [Hlen Hoff]. split; cbn; [now rewrite length_insert|exact Hoff]. }
  unfold read_serial_body. rewrite store_then by assumption.
  exec. cbn [overflow_mode set_buffer]. rewrite Hovf. exec.
  rewrite load_stored by assumption. cbn [Ascii.eqb NL Bool.eqb].
  rewrite store_then by assumption.
  exec. cbn [buffer buffer_offset set_buffer set_buffer_offset].
  rewrite list_insert_insert_eq. unfold at_dispatch, bind, ret.
  cbn [buffer set_buffer set_buffer_offset].
  match goal with |- context [parse_command ?s ?x] =>
    change x with (set_buffer_offset 0 (set_buffer s st));
    destruct (parse_command s (set_buffer_offset 0 (set_buffer s st)))
      as [[[u st'] t]|] end; [|reflexivity].
  now rewrite app_nil_r.
Qed.

Lemma body_overflow_newline (lc : Z) st :
  overflow_mode st = true -> buffer_ok st ->
  read_serial_body lc NL st =
    Some (Return,
          set_overflow_mode false
            (set_buffer (<[Z.to_nat (buffer_offset st) := NL]> (buffer st)) st),
          []).
Proof.
  intros Hovf Hok.
  unfold read_serial_body. rewrite store_then by assumption.
  exec. cbn [overflow_mode set_buffer]. rewrite Hovf. exec.
  rewrite load_stored by assumption. cbn [Ascii.eqb NL Bool.eqb].
  now exec.
Qed.

Lemma body_overflow_char (lc : Z) (c : ascii) st :
  overflow_mode st = true -> c <> NL -> buffer_ok st ->
  read_serial_body lc c st =
    let st1 := set_buffer (<[Z.to_nat (buffer_offset st) := c]> (buffer st)) st in
    if lc + 1 =? SERIAL_BUFFER_SIZE then
      Some (Return, st1, [SerialPrintln "510 OVERFLOW"])
    else if SERIAL_BUFFER_SIZE =? buffer_offset st + 1 then
      Some (Return, set_overflow_mode true (set_buffer_offset 0 st1),
            [SerialPrintln "510 OVERFLOW"])
    else
      Some (Continue (lc + 1), set_buffer_offset (buffer_offset st + 1) st1, []).
Proof.
  intros Hovf Hc Hok.
  unfold read_serial_body. rewrite store_then by assumption.
  exec. cbn [overflow_mode set_buffer]. rewrite Hovf. exec.
  rewrite load_stored by assumption. rewrite (eqb_NL_false c Hc).
  cbv zeta. destruct (lc + 1 =? SERIAL_BUFFER_SIZE); [now exec|].
  exec. rewrite load_stored by assumption. rewrite (eqb_NL_false c Hc).
  exec. cbn [buffer_offset set_buffer set_buffer_offset].
  rewrite next_offset by assumption.
  destruct (SERIAL_BUFFER_SIZE =? buffer_offset st + 1); now exec.
Qed.

Lemma buffer_ok_store (c : ascii) st :
  buffer_ok st ->
  buffer_ok (set_buffer (<[Z.to_nat (buffer_offset st) := c]> (buffer st)) st).
Proof.
  intros [Hlen Hoff]. split; cbn; [now rewrite length_insert|exact Hoff].
Qed.

(** What one round of the loop does to the globals: the line reader's stay
    well formed, and the device's are untouched unless the round is the
    dispatch of a line, which is then the only thing it does. *)
Lemma body_inv (lc : Z) (c : ascii) st (r : flow) st' (t : trace) :
  buffer_ok st ->
  read_serial_body lc c st = Some (r, st', t) ->
  buffer_ok st'
  /\ (forall lc', r = Continue lc' -> t = [])
  /\ ((device st' = device st /\ dispatches t = O)
      \/ (r = Return /\ overflow_mode st = false /\ c = NL /\
          exists t', parse_command (buffer (at_dispatch st)) (at_dispatch st)
                     = Some (tt, st', t')
                     /\ t = ParseCommand (text (buffer (at_dispatch st))) :: t')).
Proof.
  intros Hok Hrun. pose proof (buffer_ok_store c st Hok) as Hok1.
  assert (Hok0 : forall o, buffer_ok
            (set_overflow_mode o (set_buffer_offset 0
               (set_buffer (<[Z.to_nat (buffer_offset st) := c]> (buffer st)) st)))).
  { intros o. destruct Hok1 as [Hlen _]. split; [exact Hlen|].
    cbn. unfold SERIAL_BUFFER_SIZE. lia. }
  destruct (overflow_mode st) eqn:Hovf; destruct (ascii_dec c NL) as [->|Hc].
  - rewrite body_overflow_newline in Hrun by assumption.
    inversion Hrun; subst. split; [exact Hok1|]. split; [discriminate|]. now left.
  - rewrite body_overflow_char in Hrun by assumption. cbv zeta in Hrun.
    destruct (lc + 1 =? SERIAL_BUFFER_SIZE).
    { inversion Hrun; subst. split; [exact Hok1|]. split; [discriminate|]. now left. }
    destruct (Z.eqb_spec SERIAL_BUFFER_SIZE (buffer_offset st + 1)) as [Hfull|Hroom];
      inversion Hrun; subst.
    + split; [apply Hok0|]. split; [discriminate|]. now left.
    + split; [|split; [reflexivity|now left]].
      destruct Hok1 as [Hlen Hoff]. split; [exact Hlen|]. cbn in *. lia.
  - rewrite body_normal_newline in Hrun by assumption.
    destruct (parse_command _ _) as [[[[] st2] t2]|] eqn:Hparse; [|discriminate].
    inversion Hrun; subst.
    destruct (parse_command_frame _ _ _ _ Hparse) as (_ & Hb & Ho & _).
    split; [|split; [discriminate|]].
    + destruct Hok as [Hlen _]. split; [|rewrite Ho; cbn; unfold SERIAL_BUFFER_SIZE; lia].
      rewrite Hb. cbn. now rewrite length_insert.
    + right. repeat split; eauto.
  - destruct (Z.eq_dec (buffer_offset st + 1) SERIAL_BUFFER_SIZE) as [Hfull|Hroom].
    + rewrite body_normal_full in Hrun by assumption. inversion Hrun; subst.
      split; [apply Hok0|]. split; [discriminate|]. now left.
    + assert (Hlt : buffer_offset st + 1 < SERIAL_BUFFER_SIZE) by (destruct Hok; lia).
      rewrite body_normal_char in Hrun by assumption. inversion Hrun; subst.
      split; [|split; [reflexivity|now left]].
      destruct Hok1 as [Hlen Hoff]. split; [exact Hlen|]. cbn in *. lia.
Qed.

Lemma loop_cons (lc : Z) (c : ascii) (rest : list ascii) st :
  read_serial_loop lc (c :: rest) st =
    match read_serial_body lc c st with
    | None => None
    | Some (Return, st', t) => Some (rest, st', t)
    | Some (Continue lc', st', t) =>
        match read_serial_loop lc' rest st' with
        | None => None
        | Some (rest', st'', t') => Some (rest', st'', t ++ t')
        end
    end.
Proof.
  cbn [read_serial_loop]. unfold bind.
  destruct (read_serial_body lc c st) as [[[[|lc'] st'] t]|]; [|reflexivity..].
  unfold ret. now rewrite app_nil_r.
Qed.

(** What a call of [read_serial] does: it reads a non-empty prefix of the
    queue (unless the queue is empty), and either leaves the device alone or
    runs exactly one command. *)
Lemma loop_inv (input : list ascii) :
  forall (lc : Z) st (rest : list ascii) st' (t : trace),
  buffer_ok st ->
  read_serial_loop lc input st = Some (rest, st', t) ->
  buffer_ok st'
  /\ (dispatches t <= 1)%nat
  /\ (exists pre, input = pre ++ rest /\ (input <> [] -> pre <> []))
  /\ (device st' = device st
      \/ exists st0 t0, device st0 = device st /\ buffer_ok st0 /\
           parse_command (buffer st0) st0 = Some (tt, st', t0)).
Proof.
  induction input as [|c input IH]; intros lc st rest st' t Hok Hrun.
  - inversion Hrun; subst. split; [exact Hok|]. split; [cbn; lia|].
    split; [|now left]. exists []. split; [reflexivity|congruence].
  - rewrite loop_cons in Hrun.
    destruct (read_serial_body lc c st) as [[[r st1] t1]|] eqn:Hbody; [|discriminate].
    destruct (body_inv _ _ _ _ _ _ Hok Hbody) as (Hok1 & Hquiet & Hdev).
    destruct r as [|lc'].
    + inversion Hrun; subst. split; [exact Hok1|].
      split; [|split].
      * destruct Hdev as [[_ ->]|(_ & _ & _ & t' & Hparse & ->)]; [lia|].
        destruct (parse_command_frame _ _ _ _ Hparse) as (Hd & _). cbn. lia.
      * exists [c]. split; [reflexivity|discriminate].
      * destruct Hdev as [[Hd _]|(_ & Hovf & _ & t' & Hparse & _)]; [now left|].
        right. exists (at_dispatch st), t'. split; [reflexivity|]. split; [|exact Hparse].
        destruct Hok as [Hlen Hoff]. split; cbn; [now rewrite length_insert|].
        unfold SERIAL_BUFFER_SIZE. lia.
    + rewrite (Hquiet lc' eq_refl) in *.
      destruct (read_serial_loop lc' input st1) as [[[rest2 st2] t2]|] eqn:Hloop;
        [|discriminate].
      inversion Hrun; subst.
      destruct (IH _ _ _ _ _ Hok1 Hloop) as (Hok2 & Hone & (pre & Hpre & _) & Hdev2).
      destruct Hdev as [[Hd _]|(Hr & _)]; [|discriminate].
      split; [exact Hok2|]. split; [exact Hone|]. split.
      * exists (c :: pre). split; [now rewrite Hpre|discriminate].
      * rewrite <- Hd. exact Hdev2.
Qed.

Lemma length_fill (cs : list ascii) :
  forall (i : nat) (b : list ascii), length (fill i cs b) = length b.
Proof.
  induction cs as [|c cs IH]; intros i b; cbn; [reflexivity|].
  now rewrite IH, length_insert.
Qed.

Lemma fill_snoc (cs : list ascii) (c : ascii) :
  forall (i : nat) (b : list ascii),
  fill i (cs ++ [c]) b = <[(i + length cs)%nat := c]> (fill i cs b).
Proof.
  induction cs as [|c' cs IH]; intros i b; cbn.
  - now rewrite Nat.add_0_r.
  - rewrite IH. now replace (Datatypes.S i + length cs)%nat
      with (i + Datatypes.S (length cs))%nat by lia.
Qed.

(** Bytes other than the terminator that fit the array are stored one after
    the other, the loop going on after each of them; in overflow mode the
    bytes read in this call are counted too. *)
Lemma loop_chars (cs : list ascii) :
  forall (lc : Z) st (tail : list ascii),
  buffer_ok st ->
  Forall (fun c => c <> NL) cs ->
  buffer_offset st + Z.of_nat (length cs) < SERIAL_BUFFER_SIZE ->
  (overflow_mode st = true -> lc + Z.of_nat (length cs) < SERIAL_BUFFER_SIZE) ->
  read_serial_loop lc (cs ++ tail) st =
    read_serial_loop
      (if overflow_mode st then lc + Z.of_nat (length cs) else lc) tail
      (set_buffer_offset (buffer_offset st + Z.of_nat (length cs))
         (set_buffer (fill (Z.to_nat (buffer_offset st)) cs (buffer st)) st)).
Proof.
  induction cs as [|c cs IH]; intros lc st tail Hok Hcs Hroom Hcount.
  - cbn [app length fill Z.of_nat]. rewrite !Z.add_0_r.
    destruct st; cbn. now destruct overflow_mode0.
  - inversion Hcs as [|? ? Hc Hcs']; subst. cbn [length] in *.
    rewrite Nat2Z.inj_succ in *. pose proof Hok as [Hlen Hoff].
    cbn [app]. rewrite loop_cons.
    assert (Hnext : Z.to_nat (buffer_offset st + 1)
                    = Datatypes.S (Z.to_nat (buffer_offset st))) by lia.
    destruct (overflow_mode st) eqn:Hovf.
    + rewrite body_overflow_char by assumption. cbv zeta.
      replace (lc + 1 =? SERIAL_BUFFER_SIZE) with false
        by (symmetry; apply Z.eqb_neq; specialize (Hcount eq_refl); lia).
      replace (SERIAL_BUFFER_SIZE =? buffer_offset st + 1) with false
        by (symmetry; apply Z.eqb_neq; lia).
      match goal with |- match ?x with _ => _ end = _ =>
        transitivity x; [destruct x as [[[? ?] ?]|]; reflexivity|] end.
      rewrite IH; cbn [buffer_offset overflow_mode buffer set_buffer set_buffer_offset];
        try assumption; try lia;
        [|split; cbn; [now rewrite length_insert|lia]].
      rewrite Hovf, Hnext. cbn [fill].
      replace (lc + 1 + Z.of_nat (length cs)) with (lc + Z.succ (Z.of_nat (length cs))) by lia.
      replace (buffer_offset st + 1 + Z.of_nat (length cs))
        with (buffer_offset st + Z.succ (Z.of_nat (length cs))) by lia.
      reflexivity.
    + rewrite body_normal_char by (assumption || lia).
      match goal with |- match ?x with _ => _ end = _ =>
        transitivity x; [destruct x as [[[? ?] ?]|]; reflexivity|] end.
      rewrite IH; cbn [buffer_offset overflow_mode buffer set_buffer set_buffer_offset];
        try assumption; try lia; try congruence;
        [|split; cbn; [now rewrite length_insert|lia]].
      rewrite Hovf, Hnext. cbn [fill].
      replace (buffer_offset st + 1 + Z.of_nat (length cs))
        with (buffer_offset st + Z.succ (Z.of_nat (length cs))) by lia.
      reflexivity.
Qed.

Lemma buffer_ok_chars (cs : list ascii) st :
  buffer_ok st ->
  buffer_offset st + Z.of_nat (length cs) < SERIAL_BUFFER_SIZE ->
  buffer_ok
    (set_buffer_offset (buffer_offset st + Z.of_nat (length cs))
       (set_buffer (fill (Z.to_nat (buffer_offset st)) cs (buffer st)) st)).
Proof.
  intros [Hlen Hoff] Hroom. split; cbn; [now rewrite length_fill|lia].
Qed.

(** C8.  A terminator read outside overflow mode, after any bytes [cs] of
    the line that fit the array: the array is NUL-terminated at the cursor,
    the cursor goes back to 0, [parse_command] is called on the array and
    [read_serial] returns at once, leaving the rest of the queue unread.
    No call of [read_serial] dispatches more than one command. *)
Theorem newline_dispatches_one_command st (cs rest : list ascii) :
  overflow_mode st = false ->
  buffer_ok st ->
  Forall (fun c => c <> NL) cs ->
  buffer_offset st + Z.of_nat (length cs) < SERIAL_BUFFER_SIZE ->
  let st1 :=
    set_buffer_offset (buffer_offset st + Z.of_nat (length cs))
      (set_buffer (fill (Z.to_nat (buffer_offset st)) cs (buffer st)) st) in
  read_serial (cs ++ NL :: rest) st =
    match parse_command (buffer (at_dispatch st1)) (at_dispatch st1) with
    | Some (_, st', t) =>
        Some (rest, st', ParseCommand (text (buffer (at_dispatch st1))) :: t)
    | None => None
    end
  /\ buffer (at_dispatch st1) !! Z.to_nat (buffer_offset st1) = Some NUL
  /\ buffer_offset (at_dispatch st1) = 0
  /\ (forall input st0 rest' st' t,
        buffer_ok st0 ->
        read_serial input st0 = Some (rest', st', t) ->
        (dispatches t <= 1)%nat).
Proof.
  intros Hovf Hok Hcs Hroom st1.
  pose proof (buffer_ok_chars cs st Hok Hroom) as Hok1. fold st1 in Hok1.
  split; [|split; [|split]].
  - unfold read_serial. rewrite loop_chars by (assumption || congruence).
    rewrite Hovf. fold st1. rewrite loop_cons.
    rewrite body_normal_newline by (assumption || exact Hovf).
    destruct (parse_command _ _) as [[[u st'] t]|]; reflexivity.
  - destruct (in_buffer st1 Hok1) as (_ & _ & Hlt).
    unfold at_dispatch. cbn [buffer set_buffer set_buffer_offset].
    now apply list_lookup_insert_eq.
  - reflexivity.
  - intros input st0 rest' st' t Hok0 Hrun.
    now destruct (loop_inv _ _ _ _ _ _ Hok0 Hrun) as (_ & Hone & _).
Qed.

(** C9.  A line whose first character is not one of the opcodes gets the
    status 501 UNKNOWN COMMAND and [parse_command] returns with every global
    as it was.  The empty line is such a line: a terminator read first
    dispatches the empty text, which is answered in the same way, only the
    first element of the array having been set to NUL. *)
Theorem unknown_command_rejected :
  (forall (s : list ascii) (c : ascii) st,
     s !! O = Some c -> recognized c = false ->
     parse_command s st = Some (tt, st, [SerialPrintln "501 UNKNOWN COMMAND"]))
  /\
  (forall st (rest : list ascii),
     overflow_mode st = false -> buffer_ok st -> buffer_offset st = 0 ->
     read_serial (NL :: rest) st =
       Some (rest, at_dispatch st,
             [ParseCommand []; SerialPrintln "501 UNKNOWN COMMAND"])
     /\ device (at_dispatch st) = device st).
Proof.
  split; [exact parse_command_unknown|].
  intros st rest Hovf Hok Hoff. split; [|reflexivity].
  unfold read_serial. rewrite loop_cons, body_normal_newline by assumption.
  assert (Hfirst : buffer (at_dispatch st) !! O = Some NUL).
  { destruct (in_buffer st Hok) as (_ & _ & Hlt). unfold at_dispatch.
    cbn [buffer set_buffer set_buffer_offset]. rewrite Hoff in *.
    now apply list_lookup_insert_eq. }
  rewrite (parse_command_unknown _ NUL) by (exact Hfirst || reflexivity).
  destruct (buffer (at_dispatch st)) as [|c0 b]; [discriminate|].
  cbn in Hfirst. inversion Hfirst; subst. reflexivity.
Qed.

(** Entering overflow mode: the byte that fills the array. *)
Lemma overflow_entered (lc : Z) st (cs : list ascii) (c : ascii) (rest : list ascii) :
  overflow_mode st = false ->
  buffer_ok st ->
  Forall (fun c => c <> NL) cs -> c <> NL ->
  buffer_offset st + Z.of_nat (length cs) + 1 = SERIAL_BUFFER_SIZE ->
  read_serial_loop lc (cs ++ c :: rest) st =
    Some (rest,
          set_overflow_mode true
            (set_buffer_offset 0
               (set_buffer
                  (fill (Z.to_nat (buffer_offset st)) (cs ++ [c]) (buffer st)) st)),
          [SerialPrintln "510 OVERFLOW"]).
Proof.
  intros Hovf Hok Hcs Hc Hfull.
  assert (Hroom : buffer_offset st + Z.of_nat (length cs) < SERIAL_BUFFER_SIZE) by lia.
  rewrite loop_chars by (assumption || congruence). rewrite Hovf.
  rewrite loop_cons, body_normal_full;
    [|exact Hovf|assumption|now apply buffer_ok_chars|cbn; lia].
  cbn [buffer buffer_offset set_buffer set_buffer_offset].
  rewrite fill_snoc. destruct Hok as [_ Hoff].
  replace (Z.to_nat (buffer_offset st + Z.of_nat (length cs)))
    with (Z.to_nat (buffer_offset st) + length cs)%nat by lia.
  reflexivity.
Qed.

(** Bytes other than the terminator read in overflow mode: the call
    returns within [SERIAL_BUFFER_SIZE - lc] bytes, with at most one status,
    and overflow mode is still set. *)
Lemma loop_discard (input : list ascii) :
  forall (lc : Z) st,
  overflow_mode st = true ->
  buffer_ok st ->
  0 <= lc < SERIAL_BUFFER_SIZE ->
  Forall (fun c => c <> NL) input ->
  exists (rest : list ascii) st' (t : trace),
    read_serial_loop lc input st = Some (rest, st', t)
    /\ overflow_mode st' = true
    /\ buffer_ok st'
    /\ device st' = device st
    /\ (length input <= length rest + Z.to_nat (SERIAL_BUFFER_SIZE - lc))%nat
    /\ ((rest = [] /\ t = []) \/ t = [SerialPrintln "510 OVERFLOW"]).
Proof.
  induction input as [|c input IH]; intros lc st Hovf Hok Hlc Hin.
  - exists [], st, []. cbn. repeat split; auto; try apply Hok. lia.
  - inversion Hin as [|? ? Hc Hin']; subst.
    rewrite loop_cons, body_overflow_char by assumption. cbv zeta.
    pose proof (buffer_ok_store c st Hok) as Hok1. pose proof Hok as [Hlen Hoff].
    destruct (Z.eqb_spec (lc + 1) SERIAL_BUFFER_SIZE) as [Hcount|Hcount].
    { eexists _, _, _. split; [reflexivity|]. cbn [length].
      repeat split; auto; try apply Hok1. lia. }
    destruct (Z.eqb_spec SERIAL_BUFFER_SIZE (buffer_offset st + 1)) as [Hfull|Hroom].
    { eexists _, _, _. split; [reflexivity|]. cbn [length].
      repeat split; auto; try apply Hok1; cbn; unfold SERIAL_BUFFER_SIZE in *; lia. }
    destruct (IH (lc + 1)
                (set_buffer_offset (buffer_offset st + 1)
                   (set_buffer (<[Z.to_nat (buffer_offset st) := c]> (buffer st)) st)))
      as (rest & st' & t & Hrun & Hovf' & Hok' & Hdev & Hlen' & Hstatus);
      [exact Hovf| |lia|assumption|].
    { destruct Hok1 as [Hlen1 _]. split; [exact Hlen1|]. cbn. lia. }
    exists rest, st', t. rewrite Hrun. cbn [app length].
    repeat split; auto; try apply Hok'. lia.
Qed.

(** The count of bytes read in overflow mode reaching the size of the
    array: the call writes the status and returns, the mode stays. *)
Lemma overflow_count_reached st (chunk tail : list ascii) :
  overflow_mode st = true -> buffer_ok st -> buffer_offset st = 0 ->
  length chunk = 80%nat ->
  Forall (fun c => c <> NL) chunk ->
  exists st',
    read_serial (chunk ++ tail) st =
      Some (tail, st', [SerialPrintln "510 OVERFLOW"])
    /\ overflow_mode st' = true
    /\ device st' = device st.
Proof.
  intros Hovf Hok Hoff Hlen Hin.
  destruct (exists_last (l := chunk)) as (cs & c & ->);
    [intros ->; discriminate|].
  rewrite length_app in Hlen. cbn in Hlen.
  apply Forall_app in Hin. destruct Hin as [Hcs Hc].
  inversion Hc as [|? ? Hc' _]; subst.
  unfold read_serial. rewrite <- app_assoc. cbn [app].
  rewrite loop_chars; try assumption;
    [|unfold SERIAL_BUFFER_SIZE; lia|unfold SERIAL_BUFFER_SIZE; lia].
  rewrite Hovf, loop_cons, body_overflow_char;
    [|exact Hovf|assumption|apply buffer_ok_chars; [assumption|unfold SERIAL_BUFFER_SIZE; lia]].
  cbv zeta.
  replace (0 + Z.of_nat (length cs) + 1 =? SERIAL_BUFFER_SIZE) with true
    by (symmetry; apply Z.eqb_eq; unfold SERIAL_BUFFER_SIZE; lia).
  eexists. split; [reflexivity|]. split; [exact Hovf|reflexivity].
Qed.

(** C4.  While [overflow_mode] is set, the bytes read by one call of
    [read_serial] are counted in [loop_count].  A call that reads no
    terminator leaves the device alone, dispatches nothing, writes at most
    one status, returns after at most 80 bytes, and returns with overflow
    mode still set.  When the count reaches 80 (the cursor starting at 0),
    the call writes 510 OVERFLOW and returns after exactly these 80 bytes:
    it leaves the function, not the mode, which only a terminator ends. *)
Theorem overflow_mode_ends_only_at_newline :
  (forall st (input : list ascii),
     overflow_mode st = true -> buffer_ok st ->
     Forall (fun c => c <> NL) input ->
     exists (rest : list ascii) st' (t : trace),
       read_serial input st = Some (rest, st', t)
       /\ overflow_mode st' = true
       /\ device st' = device st
       /\ dispatches t = O
       /\ (length input <= length rest + 80)%nat
       /\ ((rest = [] /\ t = []) \/ t = [SerialPrintln "510 OVERFLOW"]))
  /\
  (forall st (chunk tail : list ascii),
     overflow_mode st = true -> buffer_ok st -> buffer_offset st = 0 ->
     length chunk = 80%nat ->
     Forall (fun c => c <> NL) chunk ->
     exists st',
       read_serial (chunk ++ tail) st =
         Some (tail, st', [SerialPrintln "510 OVERFLOW"])
       /\ overflow_mode st' = true
       /\ device st' = device st).
Proof.
  split.
  - intros st input Hovf Hok Hin.
    destruct (loop_discard input 0 st Hovf Hok) as
      (rest & st' & t & Hrun & Hovf' & _ & Hdev & Hlen & Hstatus);
      [unfold SERIAL_BUFFER_SIZE; lia|assumption|].
    exists rest, st', t. repeat split; auto.
    destruct Hstatus as [[_ ->]| ->]; reflexivity.
  - exact overflow_count_reached.
Qed.

Lemma serve_calls_nil (calls : nat) st :
  serve_calls calls [] st = Some ([], st, []).
Proof. destruct calls; reflexivity. Qed.

Lemma serve_calls_step (calls : nat) (input : list ascii) st :
  input <> [] ->
  serve_calls (Datatypes.S calls) input st =
    bind (read_serial input) (serve_calls calls) st.
Proof. destruct input; [congruence|reflexivity]. Qed.

(** Leaving overflow mode: a terminator after fewer than 80 discarded
    bytes. *)
Lemma overflow_left st (cs : list ascii) (rest : list ascii) :
  overflow_mode st = true ->
  buffer_ok st ->
  Forall (fun c => c <> NL) cs ->
  buffer_offset st + Z.of_nat (length cs) < SERIAL_BUFFER_SIZE ->
  Z.of_nat (length cs) < SERIAL_BUFFER_SIZE ->
  exists st',
    read_serial (cs ++ NL :: rest) st = Some (rest, st', [])
    /\ overflow_mode st' = false /\ device st' = device st.
Proof.
  intros Hovf Hok Hcs Hroom Hcount. unfold read_serial.
  rewrite loop_chars by (assumption || lia). rewrite Hovf.
  rewrite loop_cons, body_overflow_newline;
    [|exact Hovf|now apply buffer_ok_chars].
  eexists. split; [reflexivity|]. split; reflexivity.
Qed.

(** C3.  A line of at least 80 bytes with no terminator among its first
    80, read from an empty buffer outside overflow mode: the 80th byte makes
    [read_serial] write 510 OVERFLOW, put the cursor back to 0, enter
    overflow mode and return without a dispatch.  A terminator read in
    overflow mode ends the mode and makes [read_serial] return, again
    without a dispatch and without a status.  For a line shorter than 160
    bytes the status is written exactly once until its terminator has been
    read, and nothing is dispatched; a longer line gets the status again
    when a call has read 80 of its bytes in overflow mode. *)
Theorem overflow_status_and_recovery st :
  overflow_mode st = false -> buffer_ok st -> buffer_offset st = 0 ->
  (forall (line rest : list ascii),
     length line = 80%nat -> Forall (fun c => c <> NL) line ->
     read_serial (line ++ rest) st =
       Some (rest,
             set_overflow_mode true
               (set_buffer_offset 0 (set_buffer (fill 0 line (buffer st)) st)),
             [SerialPrintln "510 OVERFLOW"]))
  /\
  (forall st1 (rest : list ascii),
     overflow_mode st1 = true -> buffer_ok st1 ->
     read_serial (NL :: rest) st1 =
       Some (rest,
             set_overflow_mode false
               (set_buffer (<[Z.to_nat (buffer_offset st1) := NL]> (buffer st1)) st1),
             []))
  /\
  (forall (line : list ascii),
     (80 <= length line < 160)%nat -> Forall (fun c => c <> NL) line ->
     exists st' (t : trace),
       serve (line ++ [NL]) st = Some ([], st', t)
       /\ printed "510 OVERFLOW" t = 1%nat
       /\ dispatches t = O
       /\ overflow_mode st' = false
       /\ device st' = device st)
  /\
  (forall st1 (chunk tail : list ascii),
     overflow_mode st1 = true -> buffer_ok st1 -> buffer_offset st1 = 0 ->
     length chunk = 80%nat -> Forall (fun c => c <> NL) chunk ->
     exists st',
       read_serial (chunk ++ tail) st1 =
         Some (tail, st', [SerialPrintln "510 OVERFLOW"])
       /\ overflow_mode st' = true
       /\ device st' = device st1).
Proof.
  intros Hovf Hok Hoff.
  assert (Hfirst : forall (line rest : list ascii),
     length line = 80%nat -> Forall (fun c => c <> NL) line ->
     read_serial (line ++ rest) st =
       Some (rest,
             set_overflow_mode true
               (set_buffer_offset 0 (set_buffer (fill 0 line (buffer st)) st)),
             [SerialPrintln "510 OVERFLOW"])).
  { intros line rest Hlen Hline.
    destruct (exists_last (l := line)) as (cs & c & ->);
      [intros ->; discriminate|].
    rewrite length_app in Hlen. cbn in Hlen.
    apply Forall_app in Hline. destruct Hline as [Hcs Hc].
    inversion Hc as [|? ? Hc' _]; subst.
    unfold read_serial. rewrite <- app_assoc. cbn [app].
    rewrite overflow_entered; try assumption;
      [|rewrite Hoff; unfold SERIAL_BUFFER_SIZE; lia].
    now rewrite Hoff. }
  split; [exact Hfirst|]. split; [|split; [|exact overflow_count_reached]].
  - intros st1 rest Hovf1 Hok1. unfold read_serial.
    now rewrite loop_cons, body_overflow_newline.
  - intros line Hlen Hline.
    rewrite <- (take_drop 80 line) in Hline |- *.
    apply Forall_app in Hline. destruct Hline as [Hhead Htail].
    assert (Hlen1 : length (take 80 line) = 80%nat) by (rewrite length_take; lia).
    assert (Hlen2 : (length (drop 80 line) < 80)%nat) by (rewrite length_drop; lia).
    set (st1 := set_overflow_mode true
                  (set_buffer_offset 0
                     (set_buffer (fill 0 (take 80 line) (buffer st)) st))).
    assert (Hok1 : buffer_ok st1).
    { destruct Hok as [Hb _]. split; cbn; [now rewrite length_fill|].
      unfold SERIAL_BUFFER_SIZE. lia. }
    destruct (overflow_left st1 (drop 80 line) [] eq_refl Hok1 Htail)
      as (st2 & Hrun2 & Hovf2 & Hdev2);
      [cbn; unfold SERIAL_BUFFER_SIZE; lia|unfold SERIAL_BUFFER_SIZE; lia|].
    exists st2, [SerialPrintln "510 OVERFLOW"].
    split; [|repeat split; auto].
    unfold serve. rewrite <- app_assoc, !length_app, Hlen1.
    cbn [length Nat.add].
    rewrite serve_calls_step.
    2:{ destruct (take 80 line); [discriminate|discriminate]. }
    unfold bind at 1. rewrite (Hfirst _ _ Hlen1 Hhead). fold st1.
    replace (79 + (length (drop 80 line) + 1))%nat
      with (Datatypes.S (78 + (length (drop 80 line) + 1)))%nat by lia.
    rewrite serve_calls_step by (destruct (drop 80 line); discriminate).
    unfold bind. rewrite Hrun2, serve_calls_nil. reflexivity.
Qed.

End LineReader.

(** ** Emergency stop *)

Section EmergencyStop.
Context {T : Type} `{CustomStepper T}.
Implicit Types st : @state T.

(** What the sketch relies on from the stepper library: a rotation request
    leaves the stepper with work to do, and setting the direction to [STOP]
    twice is the same as setting it once. *)
Hypothesis rotate_not_done :
  forall (n : Z) (s : T), isDone (rotateDegrees n s) = false.
Hypothesis stop_twice :
  forall s : T, setDirection STOP (setDirection STOP s) = setDirection STOP s.

Lemma emergency_stop_result st :
  emergency_stop st =
    let st1 := set_laser_armed false (set_laser_duty_cycle 0 st) in
    if isDone (stepper st) then
      Some (tt, st1,
            [DigitalWrite PIN_LASER_ARM LOW; AnalogWrite PIN_LASER_PWM 0;
             SerialPrintln "520 LASER OFF (unarmed, duty_cycle = 0"])
    else
      Some (tt,
            set_stepper_run false
              (set_stepper (setDirection STOP (stepper st)) st1),
            [DigitalWrite PIN_LASER_ARM LOW; AnalogWrite PIN_LASER_PWM 0;
             SerialPrintln "520 LASER OFF (unarmed, duty_cycle = 0";
             SerialPrintln "521 STEPPER STOPPED, POSITION LOST"]).
Proof.
  unfold emergency_stop. exec.
  cbn [stepper set_laser_armed set_laser_duty_cycle].
  destruct (isDone (stepper st)); cbn [negb]; now exec.
Qed.

Lemma motion_ok_device st st' :
  device st' = device st -> motion_ok st -> motion_ok st'.
Proof.
  unfold motion_ok, device. intros Hdev Hst. inversion Hdev as [[Ha Hd Hs Hr Hp]].
  now rewrite Hs, Hr.
Qed.

Lemma parse_command_motion (s : list ascii) st st' (t : trace) :
  motion_ok st ->
  parse_command s st = Some (tt, st', t) ->
  motion_ok st'.
Proof.
  intros Hst Hrun.
  unfold parse_command, emergency_stop, laser_arm, laser_unarm,
    laser_set_duty_cycle, laser_fire, step_focus, step_zero_pos, print_help,
    abs, int_neg, long_add in Hrun.
  sketch_in Hrun. branches Hrun.
  all: pure_args; inversion Hrun; subst; unfold motion_ok in *; cbn in *;
    rewrite ?rotate_not_done; auto; try discriminate.
Qed.

Lemma loop_result (now : Z) (input rest : list ascii) st st' (t : trace) :
  loop now input st = Some (rest, st', t) ->
  exists st1 t1,
    read_serial input st = Some (rest, st1, t1)
    /\ buffer st' = buffer st1
    /\ buffer_offset st' = buffer_offset st1
    /\ (device st' = device st1
        \/ (isDone (stepper st') = false /\ stepper_run st' = stepper_run st1)
        \/ stepper_run st' = false).
Proof.
  unfold loop. intros Hrun. unfold bind at 1 in Hrun.
  destruct (read_serial input st) as [[[rest1 st1] t1]|]; [|discriminate].
  sketch_in Hrun. destruct (isDone (stepper st1)) eqn:Hdone; cbn in Hrun.
  - inversion Hrun; subst. exists st', t1. repeat split; auto.
  - destruct (isDone (run now (stepper st1))) eqn:Hdone'; cbn in Hrun;
      inversion Hrun; subst; exists st1, t1; repeat split; auto.
Qed.

(** The line reader's globals are well formed and the motion flag is
    consistent in every state of the running sketch. *)
Lemma reachable_inv st : reachable st -> buffer_ok st /\ motion_ok st.
Proof.
  induction 1 as [st t Hsetup|st input rest st' t _ [Hok Hmotion] Hrun
                 |st now input rest st' t _ [Hok Hmotion] Hrun
                 |st _ [Hok Hmotion] Hovf].
  - unfold setup in Hsetup. sketch_in Hsetup. inversion Hsetup; subst.
    split; [split; [reflexivity|cbn; unfold SERIAL_BUFFER_SIZE; lia]|].
    intros _. reflexivity.
  - destruct (loop_inv _ _ _ _ _ _ Hok Hrun) as (Hok' & _ & _ & Hdev).
    split; [exact Hok'|].
    destruct Hdev as [Hdev|(st0 & t0 & Hdev & _ & Hparse)].
    + now apply (motion_ok_device st).
    + apply (parse_command_motion (buffer st0) st0 st' t0); [|exact Hparse].
      now apply (motion_ok_device st).
  - destruct (loop_result _ _ _ _ _ _ Hrun) as (st1 & t1 & Hread & Hb & Ho & Hpoll).
    destruct (loop_inv _ _ _ _ _ _ Hok Hread) as (Hok1 & _ & _ & Hdev).
    assert (Hmotion1 : motion_ok st1).
    { destruct Hdev as [Hdev|(st0 & t0 & Hdev & _ & Hparse)].
      - now apply (motion_ok_device st).
      - apply (parse_command_motion (buffer st0) st0 st1 t0); [|exact Hparse].
        now apply (motion_ok_device st). }
    split.
    + destruct Hok1 as [Hlen Hoff]. split; [now rewrite Hb|now rewrite Ho].
    + destruct Hpoll as [Hsame|[[Hbusy _]|Hidle]].
      * now apply (motion_ok_device st1).
      * unfold motion_ok. congruence.
      * intros _. exact Hidle.
  - split; [|exact Hmotion].
    destruct Hok as [Hlen Hoff]. split; cbn; [now rewrite length_insert|].
    unfold SERIAL_BUFFER_SIZE. lia.
Qed.

(** C2.  In every state of the running sketch [emergency_stop] returns with
    the laser unarmed ([laser_armed] cleared, [laser_duty_cycle] 0) and the
    stepper idle ([stepper_run] cleared), and a second call straight after
    the first ends in the very same state. *)
Theorem emergency_stop_safe_and_idempotent st :
  reachable st ->
  exists st1 (t1 t2 : trace),
    emergency_stop st = Some (tt, st1, t1)
    /\ laser_armed st1 = false
    /\ laser_duty_cycle st1 = 0
    /\ stepper_run st1 = false
    /\ emergency_stop st1 = Some (tt, st1, t2).
Proof.
  intros Hreach. destruct (reachable_inv st Hreach) as [_ Hmotion].
  rewrite emergency_stop_result. cbv zeta.
  destruct (isDone (stepper st)) eqn:Hdone.
  - eexists _, _, _. split; [reflexivity|].
    split; [reflexivity|]. split; [reflexivity|].
    split; [exact (Hmotion Hdone)|].
    rewrite emergency_stop_result. cbn. rewrite Hdone. reflexivity.
  - destruct (isDone (setDirection STOP (stepper st))) eqn:Hstopped;
      eexists _, _, _; (split; [reflexivity|]);
      (split; [reflexivity|]); (split; [reflexivity|]); (split; [reflexivity|]);
      rewrite emergency_stop_result; cbn; rewrite Hstopped.
    + reflexivity.
    + rewrite stop_twice. reflexivity.
Qed.

End EmergencyStop.

(** ** Runs on the concrete stepper *)

Lemma laser_fire_unarmed_witness :
  laser_armed start = false
  /\ laser_fire (-5) start = Some (tt, start, [SerialPrintln "530 LASER UNARMED"])
  /\ writes_pwm [SerialPrintln "530 LASER UNARMED"] = false.
Proof. split; [reflexivity|]. apply (laser_fire_unarmed (-5) start). reflexivity. Defined.

Lemma laser_fire_armed_witness :
  laser_armed armed100 = true
  /\ laser_fire 50 armed100 =
       Some (tt, armed100,
             [AnalogWrite PIN_LASER_PWM 100; Delay 50; AnalogWrite PIN_LASER_PWM 0;
              SerialPrint "205 LASER FIRED "; SerialPrint "50";
              SerialPrint " ms @ "; SerialPrint "100";
              SerialPrintln "/255 duty cycle"]).
Proof. split; [reflexivity|]. apply (laser_fire_armed 50 armed100). reflexivity. Defined.

Lemma step_focus_bound_and_position_witness :
  INT_MIN < 2000 /\ INT_MIN < -20
  /\ MAX_FOCUS_ROTATION < Z.abs 2000 /\ Z.abs (-20) <= MAX_FOCUS_ROTATION
  /\ in_long (stepper_pos start + -20) = true
  /\ step_focus 2000 start =
    Some (tt, start,
          [SerialPrint "521 MAXIMUM FOCUS ROTATION IS "; SerialPrintln "1440"])
  /\ step_focus (-20) start =
       Some (tt,
             set_stepper_run true
               (set_stepper_pos (-20)
                  (set_stepper
                     (rotateDegrees 20 (setDirection CW (stepper start))) start)),
             [SerialPrint "204 FOCUS "; SerialPrintln "-20"]).
Proof.
  unfold INT_MIN, INT_MAX, MAX_FOCUS_ROTATION.
  split; [lia|]. split; [lia|]. split; [cbn; lia|]. split; [cbn; lia|].
  split; [reflexivity|]. split.
  - apply (step_focus_bound_and_position 2000 start);
      unfold INT_MIN, INT_MAX, MAX_FOCUS_ROTATION; cbn; lia.
  - apply (step_focus_bound_and_position (-20) start);
      unfold INT_MIN, INT_MAX, MAX_FOCUS_ROTATION; cbn; (lia || reflexivity).
Defined.

Lemma step_zero_pos_variant_reports_zero :
  Part000.stepper_pos variant_at_5 = 5
  /\ Part000.step_zero_pos variant_at_5 =
       Some (tt, Part000.set_stepper_pos 0 variant_at_5,
             [SerialPrint "201 FOCUS pos = "; SerialPrintln "0"])
  /\ dec 5 <> "0"%string.
Proof. split; [reflexivity|]. split; [reflexivity|]. discriminate. Qed.

Lemma duty_cycle_300_stored_as_44 :
  atoi (bytes "300") = Some 300
  /\ parse_command (bytes "d300" ++ [NUL]) start =
       Some (tt, set_laser_duty_cycle 44 start,
             [SerialPrint "206 DUTY CYCLE "; SerialPrintln "44"])
  /\ laser_duty_cycle (set_laser_duty_cycle 44 start) <> 300.
Proof. split; [reflexivity|]. split; [reflexivity|]. discriminate. Qed.

Lemma duty_cycle_stored_modulo_256_witness :
  exists st',
    parse_command (bytes "d100" ++ [NUL]) start =
      Some (tt, st',
            [SerialPrint "206 DUTY CYCLE ";
             SerialPrintln (dec (laser_duty_cycle st'))])
    /\ st' = set_laser_duty_cycle (100 mod 256) start
    /\ laser_duty_cycle st' = 100 mod 256
    /\ (0 <= 100 <= 255 -> laser_duty_cycle st' = 100).
Proof.
  apply (duty_cycle_stored_modulo_256
           (bytes "d100" ++ [NUL]) (bytes "100") 100 start); reflexivity.
Defined.

Lemma start_ok : buffer_ok start.
Proof. split; [reflexivity|]. unfold SERIAL_BUFFER_SIZE. cbn. lia. Qed.

Lemma overflowing_ok : buffer_ok overflowing.
Proof. split; [reflexivity|]. unfold SERIAL_BUFFER_SIZE. cbn. lia. Qed.

Lemma xs_no_newline (n : nat) : Forall (fun c => c <> NL) (xs n).
Proof. apply Forall_replicate. discriminate. Qed.

Lemma newline_dispatches_one_command_witness :
  read_serial (bytes "a" ++ NL :: bytes "z") start =
    Some (bytes "z",
          set_laser_armed true
            (set_buffer (fill 0 (bytes "a") (buffer start)) start),
          [ParseCommand (bytes "a"); DigitalWrite PIN_LASER_ARM HIGH;
           SerialPrintln "207 LASER ARMED"]).
Proof.
  destruct (newline_dispatches_one_command start (bytes "a") (bytes "z"))
    as (Hrun & _).
  - reflexivity.
  - exact start_ok.
  - repeat constructor; discriminate.
  - unfold SERIAL_BUFFER_SIZE. cbn. lia.
  - rewrite Hrun. reflexivity.
Defined.

Lemma unknown_command_rejected_witness :
  parse_command (bytes "x1" ++ [NUL]) armed100 =
    Some (tt, armed100, [SerialPrintln "501 UNKNOWN COMMAND"])
  /\ read_serial [NL] armed100 =
       Some ([], at_dispatch armed100,
             [ParseCommand []; SerialPrintln "501 UNKNOWN COMMAND"]).
Proof.
  destruct (@unknown_command_rejected ModelStepper.t _) as [Hparse Hempty].
  split.
  - apply (Hparse _ "x"%char); reflexivity.
  - apply (Hempty armed100 []); [reflexivity| |reflexivity].
    split; [reflexivity|]. unfold SERIAL_BUFFER_SIZE. cbn. lia.
Defined.

Lemma overflow_repeated_and_framing_lost :
  (exists st',
     serve (xs 160 ++ [NL]) start =
       Some ([], st', [SerialPrintln "510 OVERFLOW"; SerialPrintln "510 OVERFLOW"])
     /\ printed "510 OVERFLOW"
          [SerialPrintln "510 OVERFLOW"; SerialPrintln "510 OVERFLOW"] = 2%nat)
  /\
  (exists st',
     serve (xs 100 ++ [NL] ++ bytes "a" ++ [NL]) start =
       Some ([], st',
             [SerialPrintln "510 OVERFLOW";
              ParseCommand (xs 20 ++ bytes "a");
              SerialPrintln "501 UNKNOWN COMMAND"])
     /\ laser_armed st' = false
     /\ buffer_offset st' = 0).
Proof.
  split; eexists; (split; [vm_compute; reflexivity|]); repeat split.
Qed.

Lemma overflow_status_and_recovery_witness :
  exists st' (t : trace),
    serve (xs 100 ++ [NL]) start = Some ([], st', t)
    /\ printed "510 OVERFLOW" t = 1%nat
    /\ dispatches t = O
    /\ overflow_mode st' = false
    /\ device st' = device start.
Proof.
  destruct (overflow_status_and_recovery start eq_refl start_ok eq_refl)
    as (_ & _ & Hline & _).
  apply (Hline (xs 100)); [cbn; lia|apply xs_no_newline].
Defined.

Lemma overflow_mode_survives_the_bound :
  exists st1 st2,
    read_serial (xs 80) start = Some ([], st1, [SerialPrintln "510 OVERFLOW"])
    /\ overflow_mode st1 = true
    /\ read_serial (xs 80) st1 = Some ([], st2, [SerialPrintln "510 OVERFLOW"])
    /\ overflow_mode st2 = true.
Proof.
  eexists _, _. split; [vm_compute; reflexivity|]. split; [reflexivity|].
  split; [vm_compute; reflexivity|]. reflexivity.
Qed.

Lemma overflow_mode_ends_only_at_newline_witness :
  (exists (rest : list ascii) st' (t : trace),
     read_serial (xs 30) overflowing = Some (rest, st', t)
     /\ overflow_mode st' = true
     /\ device st' = device overflowing
     /\ dispatches t = O
     /\ (length (xs 30) <= length rest + 80)%nat
     /\ ((rest = [] /\ t = []) \/ t = [SerialPrintln "510 OVERFLOW"]))
  /\
  (exists st',
     read_serial (xs 80 ++ bytes "a") overflowing =
       Some (bytes "a", st', [SerialPrintln "510 OVERFLOW"])
     /\ overflow_mode st' = true
     /\ device st' = device overflowing).
Proof.
  destruct (@overflow_mode_ends_only_at_newline ModelStepper.t _)
    as [Hpersists Hexact].
  split.
  - apply (Hpersists overflowing (xs 30));
      [reflexivity|exact overflowing_ok|apply xs_no_newline].
  - apply (Hexact overflowing (xs 80) (bytes "a"));
      [reflexivity|exact overflowing_ok|reflexivity|reflexivity|apply xs_no_newline].
Defined.

Lemma armed_and_moving_reachable : reachable armed_and_moving.
Proof.
  eapply (reach_read_serial _ (bytes "p90" ++ [NL]) []).
  - eapply (reach_read_serial _ (bytes "a" ++ [NL]) []).
    + eapply reach_setup. reflexivity.
    + reflexivity.
  - reflexivity.
Qed.

Lemma model_rotate_not_done (n : Z) (s : ModelStepper.t) :
  isDone (rotateDegrees n s) = false.
Proof. reflexivity. Qed.

Lemma model_stop_twice (s : ModelStepper.t) :
  setDirection STOP (setDirection STOP s) = setDirection STOP s.
Proof. reflexivity. Qed.

Lemma emergency_stop_safe_and_idempotent_witness :
  exists st1 (t1 t2 : trace),
    emergency_stop armed_and_moving = Some (tt, st1, t1)
    /\ laser_armed st1 = false
    /\ laser_duty_cycle st1 = 0
    /\ stepper_run st1 = false
    /\ emergency_stop st1 = Some (tt, st1, t2).
Proof.
  apply (emergency_stop_safe_and_idempotent
           model_rotate_not_done model_stop_twice
           armed_and_moving armed_and_moving_reachable).
Defined.

(** * Further properties of the sketch *)

(** ** The commands *)

Section CommandResults.
Context {T : Type} `{CustomStepper T}.
Implicit Types st : @state T.

Lemma abs_defined (n : Z) st :
  INT_MIN < n -> abs n st = Some (Z.abs n, st, []).
Proof.
  intros Hn. unfold abs, int_neg, in_int, INT_MIN, INT_MAX in *.
  destruct (Z.gtb_spec n 0) as [Hpos|Hneg].
  - rewrite Z.abs_eq by lia. reflexivity.
  - rewrite Z.abs_neq by lia.
    replace ((-32768 <=? - n) && (- n <=? 32767)) with true; [reflexivity|].
    symmetry. apply andb_true_iff. split; apply Z.leb_le; lia.
Qed.

Lemma step_focus_rejects (n : Z) st :
  INT_MIN < n -> MAX_FOCUS_ROTATION < Z.abs n ->
  step_focus n st =
    Some (tt, st,
          [SerialPrint "521 MAXIMUM FOCUS ROTATION IS "; SerialPrintln "1440"]).
Proof.
  intros Hn Hbig. unfold step_focus, bind. rewrite abs_defined by assumption.
  replace (Z.abs n >? MAX_FOCUS_ROTATION) with true
    by (symmetry; apply Z.gtb_lt; lia).
  reflexivity.
Qed.

Lemma step_focus_accepts (n : Z) st :
  INT_MIN < n -> Z.abs n <= MAX_FOCUS_ROTATION ->
  in_long (stepper_pos st + n) = true ->
  step_focus n st =
    Some (tt,
          set_stepper_run true
            (set_stepper_pos (stepper_pos st + n)
               (set_stepper
                  (rotateDegrees (Z.abs n)
                     (setDirection (if n >? 0 then CCW else CW) (stepper st)))
                  st)),
          [SerialPrint "204 FOCUS "; SerialPrintln (dec n)]).
Proof.
  intros Hn Hsmall Hpos. unfold step_focus, bind at 1.
  rewrite abs_defined by assumption.
  replace (Z.abs n >? MAX_FOCUS_ROTATION) with false
    by (symmetry; rewrite Z.gtb_ltb; apply Z.ltb_ge; lia).
  unfold long_add. sketch.
  destruct (Z.gtb_spec n 0) as [Hgt|Hle].
  - rewrite Z.abs_eq by lia. cbn. rewrite Hpos. reflexivity.
  - unfold int_neg, in_int, INT_MIN, INT_MAX in *.
    replace ((-32768 <=? - n) && (- n <=? 32767)) with true
      by (symmetry; apply andb_true_iff; split; apply Z.leb_le; lia).
    rewrite Z.abs_neq by lia. cbn. rewrite Hpos. reflexivity.
Qed.

Lemma step_focus_overflows (n : Z) st :
  INT_MIN < n -> Z.abs n <= MAX_FOCUS_ROTATION ->
  in_long (stepper_pos st + n) = false ->
  step_focus n st = None.
Proof.
  intros Hn Hsmall Hpos. unfold step_focus, bind at 1.
  rewrite abs_defined by assumption.
  replace (Z.abs n >? MAX_FOCUS_ROTATION) with false
    by (symmetry; rewrite Z.gtb_ltb; apply Z.ltb_ge; lia).
  unfold long_add. sketch.
  destruct (Z.gtb_spec n 0) as [Hgt|Hle].
  - cbn. rewrite Hpos. reflexivity.
  - unfold int_neg, in_int, INT_MIN, INT_MAX in *.
    replace ((-32768 <=? - n) && (- n <=? 32767)) with true
      by (symmetry; apply andb_true_iff; split; apply Z.leb_le; lia).
    cbn. rewrite Hpos. reflexivity.
Qed.

Lemma step_focus_int_min st : step_focus INT_MIN st = None.
Proof. reflexivity. Qed.

Lemma atoi_in_int (a : list ascii) (v : Z) :
  atoi a = Some v -> in_int v = true.
Proof.
  unfold atoi. destruct (skip_space a) as [|c a'].
  - cbn. intros Hv. now inversion Hv.
  - destruct (Ascii.eqb c "-"); [|destruct (Ascii.eqb c "+")];
      match goal with |- (if in_int ?x then _ else _) = _ -> _ =>
        destruct (in_int x) eqn:Hin; [|discriminate];
        intros Hv; inversion Hv; subst; exact Hin end.
Qed.

Lemma atoi_arg_in_int (s : list ascii) (v : Z) st st' (t : trace) :
  atoi_arg s st = Some (v, st', t) -> in_int v = true /\ st' = st /\ t = [].
Proof.
  intros Harg. destruct (atoi_arg_pure _ _ _ _ _ Harg) as [-> ->].
  split; [|split; reflexivity].
  unfold atoi_arg in Harg. destruct (cstring (drop 1 s)) as [a|]; [|discriminate].
  destruct (atoi a) as [v'|] eqn:Hv; [|discriminate].
  inversion Harg; subst. exact (atoi_in_int a v Hv).
Qed.

(** X1.  [parse_command] has no result exactly when the opcode is [d], [f]
    or [p] and the argument cannot be read as an [int] (no terminator in the
    array, or a number out of range), or when the opcode is [p] and the
    argument is [INT_MIN] or an accepted rotation that takes the position
    out of the range of [long].  Every other line is answered. *)
Theorem parse_command_undefined_cases (s : list ascii) (c : ascii) st :
  s !! O = Some c ->
  (parse_command s st = None <->
   (c = "d"%char \/ c = "f"%char \/ c = "p"%char) /\
   (atoi_arg s st = None
    \/ (c = "p"%char /\
        exists v, atoi_arg s st = Some (v, st, []) /\
          (v = INT_MIN
           \/ (Z.abs v <= MAX_FOCUS_ROTATION
               /\ in_long (stepper_pos st + v) = false))))).
Proof.
  intros Hs. unfold parse_command. rewrite Hs.
  destruct (Ascii.eqb_spec c "e") as [->|He].
  { cbn. unfold emergency_stop. sketch. destruct (isDone (stepper st)); cbn;
      (split; [discriminate|]); intros [[Hc|[Hc|Hc]] _]; discriminate. }
  destruct (Ascii.eqb_spec c "a") as [->|Ha].
  { split; [discriminate|]. intros [[Hc|[Hc|Hc]] _]; discriminate. }
  destruct (Ascii.eqb_spec c "u") as [->|Hu].
  { split; [discriminate|]. intros [[Hc|[Hc|Hc]] _]; discriminate. }
  destruct (Ascii.eqb_spec c "d") as [->|Hd].
  { unfold bind. destruct (atoi_arg s st) as [[[v st1] t1]|] eqn:Harg.
    - split; [discriminate|]. intros [_ [Hnone|[Hc _]]]; discriminate.
    - split; [|reflexivity]. intros _. split; [now left|now left]. }
  destruct (Ascii.eqb_spec c "f") as [->|Hf].
  { unfold bind. destruct (atoi_arg s st) as [[[v st1] t1]|] eqn:Harg.
    - destruct (atoi_arg_in_int _ _ _ _ _ Harg) as (_ & -> & ->).
      unfold laser_fire. sketch. destruct (laser_armed st); cbn;
        (split; [discriminate|]); intros [_ [Hnone|[Hc _]]]; discriminate.
    - split; [|reflexivity]. intros _. split; [right; now left|now left]. }
  destruct (Ascii.eqb_spec c "p") as [->|Hp].
  { unfold bind. destruct (atoi_arg s st) as [[[v st1] t1]|] eqn:Harg.
    - destruct (atoi_arg_in_int _ _ _ _ _ Harg) as (Hv & -> & ->).
      assert (Hmin : INT_MIN <= v).
      { unfold in_int in Hv. apply andb_true_iff in Hv. destruct Hv as [Hv _].
        now apply Z.leb_le. }
      destruct (Z.eq_dec v INT_MIN) as [->|Hne].
      + rewrite step_focus_int_min. split; [|reflexivity]. intros _.
        split; [right; now right|]. right. split; [reflexivity|].
        exists INT_MIN. split; [reflexivity|now left].
      + assert (Hlt : INT_MIN < v) by lia.
        destruct (Z_lt_le_dec MAX_FOCUS_ROTATION (Z.abs v)) as [Hbig|Hsmall].
        * rewrite step_focus_rejects by assumption.
          split; [discriminate|]. intros [_ [Hnone|(_ & v' & Hv' & Hbad)]];
            [discriminate|]. inversion Hv'; subst. destruct Hbad as [->|[Hle _]]; lia.
        * destruct (in_long (stepper_pos st + v)) eqn:Hpos.
          -- rewrite step_focus_accepts by assumption.
             split; [discriminate|]. intros [_ [Hnone|(_ & v' & Hv' & Hbad)]];
               [discriminate|]. inversion Hv'; subst.
             destruct Hbad as [->|[_ Hfalse]]; [lia|congruence].
          -- rewrite step_focus_overflows by assumption.
             split; [|reflexivity]. intros _.
             split; [right; now right|]. right. split; [reflexivity|].
             exists v. split; [reflexivity|]. right. now split.
    - split; [|reflexivity]. intros _. split; [right; now right|now left]. }
  destruct (Ascii.eqb_spec c "z") as [->|Hz].
  { split; [discriminate|]. intros [[Hc|[Hc|Hc]] _]; discriminate. }
  destruct (Ascii.eqb_spec c "h") as [->|Hh].
  { split; [discriminate|]. intros [[Hc|[Hc|Hc]] _]; discriminate. }
  split; [discriminate|]. intros [[Hc|[Hc|Hc]] _]; congruence.
Qed.

End CommandResults.

Section CommandCompositions.
Context {T : Type} `{CustomStepper T}.
Implicit Types st : @state T.

Lemma atoi_not_a_number (a : list ascii) :
  starts_number a = false -> atoi a = Some 0.
Proof.
  destruct a as [|c a']; [reflexivity|].
  unfold starts_number. intros Hc.
  apply orb_false_elim in Hc. destruct Hc as [Hc Hdigit].
  apply orb_false_elim in Hc. destruct Hc as [Hc Hplus].
  apply orb_false_elim in Hc. destruct Hc as [Hspace Hminus].
  unfold atoi. cbn [skip_space]. rewrite Hspace, Hminus, Hplus.
  cbn [atoi_digits]. destruct (digit_of c); [discriminate|]. reflexivity.
Qed.

(** X2.  An argument that does not start like a number (nothing at all, or
    a first character that is no white space, sign or digit) is read as 0:
    the duty cycle command then stores 0, the fire command fires for 0 ms
    and the focus command requests a rotation of 0 degrees. *)
Theorem missing_argument_reads_as_zero (s a : list ascii) st :
  cstring (drop 1 s) = Some a ->
  starts_number a = false ->
  (s !! O = Some "d"%char ->
     parse_command s st =
       Some (tt, set_laser_duty_cycle 0 st,
             [SerialPrint "206 DUTY CYCLE "; SerialPrintln "0"]))
  /\ (s !! O = Some "f"%char -> parse_command s st = laser_fire 0 st)
  /\ (s !! O = Some "p"%char -> parse_command s st = step_focus 0 st).
Proof.
  intros Ha Hnum. pose proof (atoi_not_a_number a Hnum) as Hzero.
  assert (Harg : atoi_arg s st = Some (0, st, [])).
  { unfold atoi_arg. now rewrite Ha, Hzero. }
  repeat split; intros Hs; unfold parse_command; rewrite Hs;
    cbn [Ascii.eqb Bool.eqb]; unfold bind at 1; rewrite Harg.
  - reflexivity.
  - now destruct (laser_fire 0 st) as [[[u st'] t]|].
  - now destruct (step_focus 0 st) as [[[u st'] t]|].
Qed.

(** X3.  The position is counted when the rotation is requested, not when
    it is done: [step_zero_pos] straight after an accepted [step_focus n]
    reports the old position plus [n], and leaves the position at 0 with
    the motion flag still set. *)
Theorem focus_then_zero_reports_the_sum (n : Z) st :
  INT_MIN < n -> Z.abs n <= MAX_FOCUS_ROTATION ->
  in_long (stepper_pos st + n) = true ->
  exists st',
    bind (step_focus n) (fun _ => step_zero_pos) st =
      Some (tt, st',
            [SerialPrint "204 FOCUS "; SerialPrintln (dec n);
             SerialPrint "209 FOCUS ZEROED, old pos = ";
             SerialPrintln (dec (stepper_pos st + n))])
    /\ stepper_pos st' = 0
    /\ stepper_run st' = true
    /\ stepper st' =
         rotateDegrees (Z.abs n)
           (setDirection (if n >? 0 then CCW else CW) (stepper st)).
Proof.
  intros Hn Hsmall Hpos. unfold bind at 1.
  rewrite step_focus_accepts by assumption.
  eexists. split; [reflexivity|]. repeat split.
Qed.

(** X4.  An emergency stop during a rotation keeps the position that was
    counted for it: after an accepted [step_focus n], [emergency_stop]
    tells the stepper to stop, clears the motion flag, writes both the 520
    and the 521 status, and leaves [stepper_pos] at the old position plus
    [n] (given that a rotation request leaves the stepper with work to
    do). *)
Theorem abort_keeps_the_counted_position (n : Z) st :
  (forall (k : Z) (s : T), isDone (rotateDegrees k s) = false) ->
  INT_MIN < n -> Z.abs n <= MAX_FOCUS_ROTATION ->
  in_long (stepper_pos st + n) = true ->
  exists st',
    bind (step_focus n) (fun _ => emergency_stop) st =
      Some (tt, st',
            [SerialPrint "204 FOCUS "; SerialPrintln (dec n);
             DigitalWrite PIN_LASER_ARM LOW; AnalogWrite PIN_LASER_PWM 0;
             SerialPrintln "520 LASER OFF (unarmed, duty_cycle = 0";
             SerialPrintln "521 STEPPER STOPPED, POSITION LOST"])
    /\ stepper_pos st' = stepper_pos st + n
    /\ stepper_run st' = false
    /\ laser_armed st' = false
    /\ stepper st' =
         setDirection STOP
           (rotateDegrees (Z.abs n)
              (setDirection (if n >? 0 then CCW else CW) (stepper st))).
Proof.
  intros Hbusy Hn Hsmall Hpos. unfold bind at 1.
  rewrite step_focus_accepts by assumption.
  rewrite emergency_stop_result. cbn. rewrite Hbusy.
  eexists. split; [reflexivity|]. repeat split.
Qed.

(** X5.  Firing is possible exactly after arming: [laser_fire] straight
    after [laser_arm] drives the PWM output at the stored duty cycle in
    every state, and straight after [laser_unarm] or [emergency_stop] it is
    refused with the 530 status and no write of the PWM output other than
    the 0 of the emergency stop.  Arming and unarming leave the duty cycle
    as it was; the emergency stop sets it to 0. *)
Theorem fire_after_arm_unarm_and_stop (n : Z) st :
  bind laser_arm (fun _ => laser_fire n) st =
    Some (tt, set_laser_armed true st,
          [DigitalWrite PIN_LASER_ARM HIGH; SerialPrintln "207 LASER ARMED";
           AnalogWrite PIN_LASER_PWM (laser_duty_cycle st);
           Delay (to_ulong n);
           AnalogWrite PIN_LASER_PWM 0;
           SerialPrint "205 LASER FIRED "; SerialPrint (dec n);
           SerialPrint " ms @ "; SerialPrint (dec (laser_duty_cycle st));
           SerialPrintln "/255 duty cycle"])
  /\ bind laser_unarm (fun _ => laser_fire n) st =
       Some (tt, set_laser_armed false st,
             [DigitalWrite PIN_LASER_ARM LOW; SerialPrintln "208 LASER UNARMED";
              SerialPrintln "530 LASER UNARMED"])
  /\ exists st' (t : trace),
       bind emergency_stop (fun _ => laser_fire n) st =
         Some (tt, st', t ++ [SerialPrintln "530 LASER UNARMED"])
       /\ emergency_stop st = Some (tt, st', t)
       /\ pwm_writes (t ++ [SerialPrintln "530 LASER UNARMED"]) = [0]
       /\ laser_duty_cycle st' = 0.
Proof.
  split; [reflexivity|]. split; [reflexivity|].
  unfold bind at 1. rewrite emergency_stop_result. cbv zeta.
  destruct (isDone (stepper st)); eexists _, _;
    (split; [reflexivity|]); repeat split.
Qed.

(** X6.  No command touches the line reader: whatever [parse_command]
    runs, the array, the cursor and the overflow flag are as before, and no
    command calls [parse_command] again. *)
Theorem commands_keep_the_line_reader (s : list ascii) st st' (t : trace) :
  parse_command s st = Some (tt, st', t) ->
  buffer st' = buffer st
  /\ buffer_offset st' = buffer_offset st
  /\ overflow_mode st' = overflow_mode st
  /\ dispatches t = O.
Proof.
  intros Hrun.
  destruct (parse_command_frame s st st' t Hrun) as (Hd & Hb & Ho & Hm).
  auto.
Qed.

End CommandCompositions.

(** ** The line reader, continued *)

Section ReaderShape.
Context {T : Type} `{CustomStepper T}.
Implicit Types st : @state T.

(** One round of the loop either leaves the device alone and writes at most
    the overflow status, or is the dispatch of a line. *)
Lemma body_shape (lc : Z) (c : ascii) st :
  buffer_ok st ->
  (exists (r : flow) st' (t : trace),
     read_serial_body lc c st = Some (r, st', t)
     /\ device st' = device st /\ buffer_ok st'
     /\ match r with
        | Return => t = [] \/ t = [SerialPrintln "510 OVERFLOW"]
        | Continue _ => t = []
        end)
  \/ (overflow_mode st = false /\ c = NL /\ buffer_ok (at_dispatch st)
      /\ read_serial_body lc c st =
           match parse_command (buffer (at_dispatch st)) (at_dispatch st) with
           | Some (_, st', t) =>
               Some (Return, st',
                     ParseCommand (text (buffer (at_dispatch st))) :: t)
           | None => None
           end).
Proof.
  intros Hok. pose proof (buffer_ok_store c st Hok) as Hok1.
  assert (Hok0 : forall o, buffer_ok
            (set_overflow_mode o (set_buffer_offset 0
               (set_buffer (<[Z.to_nat (buffer_offset st) := c]> (buffer st)) st)))).
  { intros o. destruct Hok1 as [Hlen _]. split; [exact Hlen|].
    cbn. unfold SERIAL_BUFFER_SIZE. lia. }
  destruct (overflow_mode st) eqn:Hovf; destruct (ascii_dec c NL) as [->|Hc].
  - left. rewrite body_overflow_newline by assumption.
    eexists _, _, _. split; [reflexivity|]. repeat split; auto; apply Hok1.
  - left. rewrite body_overflow_char by assumption. cbv zeta.
    destruct (lc + 1 =? SERIAL_BUFFER_SIZE).
    { eexists _, _, _. split; [reflexivity|]. repeat split; auto; apply Hok1. }
    destruct (Z.eqb_spec SERIAL_BUFFER_SIZE (buffer_offset st + 1)) as [Hfull|Hroom].
    + eexists _, _, _. split; [reflexivity|]. split; [reflexivity|].
      split; [apply Hok0|now right].
    + eexists _, _, _. split; [reflexivity|]. split; [reflexivity|].
      split; [|reflexivity].
      destruct Hok1 as [Hlen Hoff]. split; [exact Hlen|]. cbn in *. lia.
  - right. split; [reflexivity|]. split; [reflexivity|]. split.
    + destruct Hok as [Hlen Hoff]. split; cbn; [now rewrite length_insert|].
      unfold SERIAL_BUFFER_SIZE. lia.
    + now apply body_normal_newline.
  - left. destruct (Z.eq_dec (buffer_offset st + 1) SERIAL_BUFFER_SIZE) as [Hfull|Hroom].
    + rewrite body_normal_full by assumption.
      eexists _, _, _. split; [reflexivity|]. split; [reflexivity|].
      split; [apply Hok0|now right].
    + assert (Hlt : buffer_offset st + 1 < SERIAL_BUFFER_SIZE) by (destruct Hok; lia).
      rewrite body_normal_char by assumption.
      eexists _, _, _. split; [reflexivity|]. split; [reflexivity|].
      split; [|reflexivity].
      destruct Hok1 as [Hlen Hoff]. split; [exact Hlen|]. cbn in *. lia.
Qed.

(** A call of [read_serial] either leaves the device alone, dispatching
    nothing and writing at most the overflow status, or it reads up to a
    terminator and is the dispatch of the line before it. *)
Lemma loop_shape (input : list ascii) :
  forall (lc : Z) st,
  buffer_ok st ->
  (exists (rest : list ascii) st' (t : trace),
     read_serial_loop lc input st = Some (rest, st', t)
     /\ device st' = device st /\ buffer_ok st'
     /\ (t = [] \/ t = [SerialPrintln "510 OVERFLOW"]))
  \/ (exists (pre rest : list ascii) st0,
        input = pre ++ NL :: rest
        /\ buffer_ok st0 /\ device st0 = device st
        /\ read_serial_loop lc input st =
             match parse_command (buffer st0) st0 with
             | Some (_, st', t) =>
                 Some (rest, st', ParseCommand (text (buffer st0)) :: t)
             | None => None
             end).
Proof.
  induction input as [|c input IH]; intros lc st Hok.
  - left. exists [], st, []. repeat split; auto; apply Hok.
  - rewrite loop_cons.
    destruct (body_shape lc c st Hok)
      as [(r & st1 & t1 & Hbody & Hdev & Hok1 & Ht)|(Hovf & -> & Hokd & Hbody)].
    + rewrite Hbody. destruct r as [|lc'].
      * left. exists input, st1, t1. repeat split; auto; apply Hok1.
      * subst t1.
        destruct (IH lc' st1 Hok1)
          as [(rest & st2 & t2 & Hloop & Hdev2 & Hok2 & Ht2)
             |(pre & rest & st0 & -> & Hok0 & Hdev0 & Hloop)].
        -- left. rewrite Hloop. exists rest, st2, t2.
           repeat split; auto; try apply Hok2. congruence.
        -- right. exists (c :: pre), rest, st0.
           split; [reflexivity|]. split; [exact Hok0|]. split; [congruence|].
           rewrite Hloop.
           destruct (parse_command (buffer st0) st0) as [[[u st'] t]|]; reflexivity.
    + right. exists [], input, (at_dispatch st).
      split; [reflexivity|]. split; [exact Hokd|]. split; [reflexivity|].
      rewrite Hbody.
      destruct (parse_command _ _) as [[[u st'] t]|]; reflexivity.
Qed.

(** X7.  The line reader itself is always defined on a well-formed buffer:
    a call of [read_serial] has no result only when it dispatches a line
    whose command has none, the command being entered with the device
    globals as they were before the call. *)
Theorem read_serial_undefined_only_in_dispatch (input : list ascii) st :
  buffer_ok st ->
  read_serial input st = None ->
  exists (pre rest : list ascii) st0,
    input = pre ++ NL :: rest
    /\ buffer_ok st0 /\ device st0 = device st
    /\ parse_command (buffer st0) st0 = None.
Proof.
  intros Hok Hnone. unfold read_serial in Hnone.
  destruct (loop_shape input 0 st Hok)
    as [(rest & st' & t & Hloop & _)|(pre & rest & st0 & Hin & Hok0 & Hdev & Hloop)].
  - congruence.
  - exists pre, rest, st0. repeat split; auto; try apply Hok0.
    rewrite Hloop in Hnone.
    destruct (parse_command (buffer st0) st0) as [[[u st'] t]|];
      [discriminate|reflexivity].
Qed.

End ReaderShape.

(** ** Safety of the outputs *)

Section OutputSafety.
Context {T : Type} `{CustomStepper T}.
Implicit Types st : @state T.

Lemma parse_command_outputs (s : list ascii) st st' (t : trace) :
  parse_command s st = Some (tt, st', t) ->
  (laser_armed st = false -> Forall (fun v => v = 0) (pwm_writes t))
  /\ (forall o, outputs_agree o st -> outputs_agree (outputs t o) st')
  /\ (in_range st -> in_range st').
Proof.
  intros Hrun.
  unfold parse_command, emergency_stop, laser_arm, laser_unarm,
    laser_set_duty_cycle, laser_fire, step_focus, step_zero_pos, print_help,
    abs, int_neg, long_add in Hrun.
  sketch_in Hrun. branches Hrun.
  all: pure_args; inversion Hrun; subst; clear Hrun.
  all: split; [|split].
  all: try (intros Harmed; cbn in *; repeat constructor; congruence).
  all: try (intros o [Hpwm Harm]; unfold outputs_agree in *; cbn in *;
            split; [assumption || reflexivity|];
            split; intros; congruence || tauto).
  all: try (intros [Hduty Hpos]; unfold in_range in *; cbn in *;
            split; [|assumption || reflexivity]; try assumption; try lia;
            unfold to_byte; match goal with |- context [?z mod 256] =>
              pose proof (Z.mod_pos_bound z 256) end; lia).
  intros Harmed. rewrite Harmed in *. discriminate.
Qed.

Lemma pwm_writes_app (t1 t2 : trace) :
  pwm_writes (t1 ++ t2) = pwm_writes t1 ++ pwm_writes t2.
Proof.
  induction t1 as [|e t1 IH]; [reflexivity|].
  destruct e as [| |? ?|[|] ?| | | |]; cbn; now rewrite ?IH.
Qed.

Lemma outputs_app (t1 t2 : trace) :
  forall o, outputs (t1 ++ t2) o = outputs t2 (outputs t1 o).
Proof.
  induction t1 as [|e t1 IH]; intros o; [reflexivity|].
  destruct e as [| |[|] ?|[|] ?| | | |]; cbn; now rewrite ?IH.
Qed.

(** What the poll of the stepper at the end of [loop] adds to the call of
    [read_serial]: at most the completion status, and no change of the
    laser globals, of the position or of the line reader. *)
Lemma loop_trace (now : Z) (input rest : list ascii) st st' (t : trace) :
  loop now input st = Some (rest, st', t) ->
  exists st1 (t1 t2 : trace),
    read_serial input st = Some (rest, st1, t1)
    /\ t = t1 ++ t2
    /\ (t2 = []
        \/ t2 = [SerialPrint "201 FOCUS DONE, pos = ";
                 SerialPrintln (dec (stepper_pos st1))])
    /\ laser_armed st' = laser_armed st1
    /\ laser_duty_cycle st' = laser_duty_cycle st1
    /\ stepper_pos st' = stepper_pos st1
    /\ buffer st' = buffer st1
    /\ buffer_offset st' = buffer_offset st1.
Proof.
  unfold loop. intros Hrun. unfold bind at 1 in Hrun.
  destruct (read_serial input st) as [[[rest1 st1] t1]|]; [|discriminate].
  sketch_in Hrun. destruct (isDone (stepper st1)) eqn:Hdone; cbn in Hrun.
  - inversion Hrun; subst. exists st', t1, []. repeat split; auto.
  - destruct (isDone (run now (stepper st1))) eqn:Hdone'; cbn in Hrun;
      inversion Hrun; subst.
    + eexists st1, t1, _. split; [reflexivity|]. split; [reflexivity|].
      split; [now right|]. repeat split.
    + exists st1, t1, []. repeat split; auto.
Qed.

(** X15.  The poll of the stepper at the end of [loop] only reports: it
    leaves the laser globals, the position and the line reader as
    [read_serial] left them, and either writes nothing and keeps the motion
    flag, or, when the stepper that was busy says it is done after [run],
    clears the motion flag and writes the 201 status with the tracked
    position. *)
Theorem poll_only_reports_completion
  (now : Z) (input rest : list ascii) st st' (t : trace) :
  loop now input st = Some (rest, st', t) ->
  exists st1 (t1 : trace),
    read_serial input st = Some (rest, st1, t1)
    /\ laser_armed st' = laser_armed st1
    /\ laser_duty_cycle st' = laser_duty_cycle st1
    /\ stepper_pos st' = stepper_pos st1
    /\ buffer st' = buffer st1
    /\ buffer_offset st' = buffer_offset st1
    /\ overflow_mode st' = overflow_mode st1
    /\ ((t = t1 /\ stepper_run st' = stepper_run st1
         /\ (isDone (stepper st1) = true -> st' = st1))
        \/ (t = t1 ++ [SerialPrint "201 FOCUS DONE, pos = ";
                       SerialPrintln (dec (stepper_pos st1))]
            /\ stepper_run st' = false
            /\ isDone (stepper st1) = false
            /\ stepper st' = run now (stepper st1)
            /\ isDone (stepper st') = true)).
Proof.
  unfold loop. intros Hrun. unfold bind at 1 in Hrun.
  destruct (read_serial input st) as [[[rest1 st1] t1]|]; [|discriminate].
  sketch_in Hrun. destruct (isDone (stepper st1)) eqn:Hdone; cbn in Hrun.
  - inversion Hrun; subst. exists st', t1. rewrite app_nil_r.
    repeat split; auto.
  - destruct (isDone (run now (stepper st1))) eqn:Hdone'; cbn in Hrun;
      inversion Hrun; subst; exists st1, t1.
    + repeat split; auto. right. repeat split; auto.
    + rewrite app_nil_r. repeat split; auto. left. repeat split; auto.
      intros Hidle. congruence.
Qed.

(** X8.  An unarmed laser is never driven: in an iteration of [loop] that
    starts with [laser_armed] clear, every value written to the PWM output
    is 0, whatever bytes are read and whatever command is dispatched. *)
Theorem unarmed_laser_is_never_driven
  (now : Z) (input rest : list ascii) st st' (t : trace) :
  buffer_ok st ->
  laser_armed st = false ->
  loop now input st = Some (rest, st', t) ->
  Forall (fun v => v = 0) (pwm_writes t).
Proof.
  intros Hok Harmed Hrun.
  destruct (loop_trace _ _ _ _ _ _ Hrun) as (st1 & t1 & t2 & Hread & -> & Ht2 & _).
  rewrite pwm_writes_app. apply Forall_app. split.
  - unfold read_serial in Hread.
    destruct (loop_shape input 0 st Hok)
      as [(rest' & st2 & t' & Hloop & _ & _ & Ht')
         |(pre & rest' & st0 & _ & _ & Hdev & Hloop)].
    + rewrite Hloop in Hread. inversion Hread; subst.
      destruct Ht' as [->| ->]; constructor.
    + rewrite Hloop in Hread.
      destruct (parse_command (buffer st0) st0) as [[[[] st2] t0]|] eqn:Hparse;
        [|discriminate].
      inversion Hread; subst. cbn.
      apply (parse_command_outputs _ _ _ _ Hparse).
      unfold device in Hdev. inversion Hdev. congruence.
  - destruct Ht2 as [->| ->]; constructor.
Qed.

(** X9.  The outputs follow the globals.  [setup] leaves the arm pin low
    and the PWM output at 0 with the laser unarmed; and if, before an
    iteration of [loop], the PWM output is at 0 and the arm pin is high
    exactly when [laser_armed] is set, the same holds after it. *)
Theorem outputs_follow_the_globals :
  (forall o : level * Z,
     exists st (t : trace),
       setup (globals (T := T)) = Some (tt, st, t)
       /\ outputs_agree (outputs t o) st)
  /\
  (forall (now : Z) (input rest : list ascii) st st' (t : trace) (o : level * Z),
     buffer_ok st ->
     outputs_agree o st ->
     loop now input st = Some (rest, st', t) ->
     outputs_agree (outputs t o) st').
Proof.
  split.
  - intros o. eexists _, _. split; [reflexivity|].
    split; cbn; [reflexivity|]. split; discriminate.
  - intros now input rest st st' t o Hok Hagree Hrun.
    destruct (loop_trace _ _ _ _ _ _ Hrun)
      as (st1 & t1 & t2 & Hread & -> & Ht2 & Harm & _).
    assert (Hagree1 : outputs_agree (outputs t1 o) st1).
    { unfold read_serial in Hread.
      destruct (loop_shape input 0 st Hok)
        as [(rest' & st2 & t' & Hloop & Hdev & _ & Ht')
           |(pre & rest' & st0 & _ & _ & Hdev & Hloop)].
      - rewrite Hloop in Hread. inversion Hread; subst.
        assert (Hsame : laser_armed st1 = laser_armed st)
          by (unfold device in Hdev; inversion Hdev; congruence).
        unfold outputs_agree in *. rewrite Hsame.
        destruct Ht' as [->| ->]; exact Hagree.
      - rewrite Hloop in Hread.
        destruct (parse_command (buffer st0) st0) as [[[[] st2] t0]|] eqn:Hparse;
          [|discriminate].
        inversion Hread; subst. cbn.
        apply (parse_command_outputs _ _ _ _ Hparse).
        assert (Hsame : laser_armed st0 = laser_armed st)
          by (unfold device in Hdev; inversion Hdev; congruence).
        unfold outputs_agree in *. now rewrite Hsame. }
    rewrite outputs_app. unfold outputs_agree in *. rewrite Harm.
    destruct Ht2 as [->| ->]; exact Hagree1.
Qed.

(** X10.  In every state of the running sketch the globals fit their
    types and the array: the duty cycle is within 0..255, the position is
    within the range of [long], the array holds 80 elements and the cursor
    is inside it, so that no write of [read_serial] falls outside the
    array. *)
Theorem globals_stay_in_range st :
  reachable st -> in_range st /\ buffer_ok st.
Proof.
  assert (Hdevice : forall st1 st2 : @state T,
            device st2 = device st1 -> in_range st1 -> in_range st2).
  { intros st1 st2 Hdev [Hd Hp]. unfold device in Hdev. inversion Hdev.
    unfold in_range. split; congruence. }
  assert (Hread : forall (input rest : list ascii) (st1 st2 : @state T) (t : trace),
            in_range st1 -> buffer_ok st1 ->
            read_serial input st1 = Some (rest, st2, t) ->
            in_range st2 /\ buffer_ok st2).
  { intros input rest st1 st2 t Hrange Hok Hrun.
    destruct (loop_inv _ _ _ _ _ _ Hok Hrun) as (Hok' & _ & _ & Hdev).
    split; [|exact Hok'].
    destruct Hdev as [Hdev|(st0 & t0 & Hdev & _ & Hparse)].
    - now apply (Hdevice st1).
    - apply (parse_command_outputs _ _ _ _ Hparse). now apply (Hdevice st1). }
  induction 1 as [st t Hsetup|st input rest st' t _ [Hrange Hok] Hrun
                 |st now input rest st' t _ [Hrange Hok] Hrun
                 |st _ [Hrange Hok] Hovf].
  - unfold setup in Hsetup. sketch_in Hsetup. inversion Hsetup; subst.
    split; [split; cbn; [lia|reflexivity]|].
    split; [reflexivity|cbn; unfold SERIAL_BUFFER_SIZE; lia].
  - exact (Hread _ _ _ _ _ Hrange Hok Hrun).
  - destruct (loop_trace _ _ _ _ _ _ Hrun)
      as (st1 & t1 & t2 & Hrun1 & _ & _ & _ & Hd & Hp & Hb & Ho).
    destruct (Hread _ _ _ _ _ Hrange Hok Hrun1) as [[Hd1 Hp1] [Hlen Hoff]].
    split; split; congruence.
  - split; [exact Hrange|].
    destruct Hok as [Hlen Hoff]. split; cbn; [now rewrite length_insert|].
    unfold SERIAL_BUFFER_SIZE. lia.
Qed.

End OutputSafety.

(** ** Framing of lines *)

Section Framing.
Context {T : Type} `{CustomStepper T}.
Implicit Types st : @state T.

Lemma fill_app (a b : list ascii) :
  forall (i : nat) (buf : list ascii),
  fill i (a ++ b) buf = fill (i + length a) b (fill i a buf).
Proof.
  induction a as [|c a IH]; intros i buf; cbn.
  - now rewrite Nat.add_0_r.
  - rewrite IH. now replace (Datatypes.S i + length a)%nat
      with (i + Datatypes.S (length a))%nat by lia.
Qed.

Lemma fill_take_drop (cs : list ascii) :
  forall (i : nat) (buf : list ascii),
  (i + length cs <= length buf)%nat ->
  fill i cs buf = take i buf ++ cs ++ drop (i + length cs) buf.
Proof.
  induction cs as [|c cs IH]; intros i buf Hlen; cbn [fill length app] in *.
  - now rewrite Nat.add_0_r, take_drop.
  - rewrite IH by (rewrite length_insert; lia).
    rewrite take_insert_lt by lia.
    rewrite drop_insert_lt by lia.
    assert (Hi : (i < length buf)%nat) by lia.
    destruct (lookup_lt_is_Some_2 buf i Hi) as [x Hx].
    rewrite (take_S_r _ _ x Hx), insert_app_r_alt by (rewrite length_take; lia).
    rewrite length_take, Nat.min_l, Nat.sub_diag by lia. cbn.
    rewrite <- app_assoc. cbn.
    now replace (i + Datatypes.S (length cs))%nat
      with (Datatypes.S (i + length cs))%nat by lia.
Qed.

Lemma read_chars (cs : list ascii) st :
  overflow_mode st = false -> buffer_ok st ->
  Forall (fun c => c <> NL) cs ->
  buffer_offset st + Z.of_nat (length cs) < SERIAL_BUFFER_SIZE ->
  read_serial cs st =
    Some ([],
          set_buffer_offset (buffer_offset st + Z.of_nat (length cs))
            (set_buffer (fill (Z.to_nat (buffer_offset st)) cs (buffer st)) st),
          []).
Proof.
  intros Hovf Hok Hcs Hroom. unfold read_serial.
  rewrite <- (app_nil_r cs) at 1.
  rewrite loop_chars by (assumption || congruence). now rewrite Hovf.
Qed.

(** X11.  Bytes of a line that is not finished yet (no terminator, room
    left in the array, no overflow mode) are only stored: the call reads
    them all, writes nothing, dispatches nothing and leaves the device
    alone.  It does not matter how the bytes arrive: two calls on the two
    halves end in the same state as one call on the whole. *)
Theorem partial_line_is_buffered (a b : list ascii) st :
  overflow_mode st = false -> buffer_ok st ->
  Forall (fun c => c <> NL) (a ++ b) ->
  buffer_offset st + Z.of_nat (length (a ++ b)) < SERIAL_BUFFER_SIZE ->
  exists st1 st2,
    read_serial a st = Some ([], st1, [])
    /\ read_serial b st1 = Some ([], st2, [])
    /\ read_serial (a ++ b) st = Some ([], st2, [])
    /\ device st2 = device st
    /\ overflow_mode st2 = false
    /\ buffer_offset st2 = buffer_offset st + Z.of_nat (length (a ++ b)).
Proof.
  intros Hovf Hok Hab Hroom.
  apply Forall_app in Hab as Hsplit. destruct Hsplit as [Ha Hb].
  rewrite length_app, Nat2Z.inj_add in Hroom. pose proof Hok as [Hlen Hoff].
  assert (Hroom_a : buffer_offset st + Z.of_nat (length a) < SERIAL_BUFFER_SIZE) by lia.
  pose proof (buffer_ok_chars a st Hok Hroom_a) as Hok1.
  eexists _, _. split; [now apply read_chars|].
  split; [apply read_chars; cbn; auto; lia|].
  split.
  - rewrite read_chars; try assumption;
      [|rewrite length_app, Nat2Z.inj_add; lia].
    cbn [buffer buffer_offset set_buffer set_buffer_offset].
    rewrite fill_app, length_app, Nat2Z.inj_add.
    replace (Z.to_nat (buffer_offset st + Z.of_nat (length a)))
      with (Z.to_nat (buffer_offset st) + length a)%nat by lia.
    replace (buffer_offset st + (Z.of_nat (length a) + Z.of_nat (length b)))
      with (buffer_offset st + Z.of_nat (length a) + Z.of_nat (length b)) by lia.
    reflexivity.
  - split; [reflexivity|]. split; [exact Hovf|].
    cbn. rewrite length_app, Nat2Z.inj_add. lia.
Qed.

Lemma text_before_nul (l r : list ascii) :
  Forall (fun c => c <> NUL) l -> text (l ++ NUL :: r) = l.
Proof.
  induction 1 as [|c l Hc _ IH]; [reflexivity|].
  cbn. rewrite IH. apply Ascii.eqb_neq in Hc. now rewrite Hc.
Qed.

Lemma cstring_before_nul (l r : list ascii) :
  Forall (fun c => c <> NUL) l -> cstring (l ++ NUL :: r) = Some l.
Proof.
  induction 1 as [|c l Hc _ IH]; [reflexivity|].
  cbn. rewrite IH. apply Ascii.eqb_neq in Hc. now rewrite Hc.
Qed.

(** What follows the terminating NUL in the array is not read. *)
Lemma parse_command_text (l r : list ascii) st :
  Forall (fun c => c <> NUL) l ->
  parse_command (l ++ NUL :: r) st = parse_command (l ++ [NUL]) st.
Proof.
  intros Hl. destruct l as [|c l]; [reflexivity|].
  inversion Hl; subst.
  unfold parse_command, atoi_arg. cbn [app lookup list_lookup drop].
  rewrite !drop_0.
  change (l ++ [NUL]) with (l ++ NUL :: []).
  now rewrite !cstring_before_nul.
Qed.

(** X12.  A line is dispatched by its text alone.  For a line of fewer
    than 80 bytes without NUL, read from cursor 0 outside overflow mode,
    the terminator makes [read_serial] call [parse_command] on an array
    that holds the line, a NUL, and then whatever earlier lines left there;
    the text of the call is the line, and the command does what it would do
    on an array holding nothing but the line. *)
Theorem line_dispatched_by_its_text (line rest : list ascii) st :
  overflow_mode st = false -> buffer_ok st -> buffer_offset st = 0 ->
  Forall (fun c => c <> NL) line ->
  Forall (fun c => c <> NUL) line ->
  Z.of_nat (length line) < SERIAL_BUFFER_SIZE ->
  exists st0,
    buffer st0 =
      line ++ NUL :: drop (Datatypes.S (length line)) (buffer st)
    /\ buffer_offset st0 = 0
    /\ device st0 = device st
    /\ read_serial (line ++ NL :: rest) st =
         match parse_command (line ++ [NUL]) st0 with
         | Some (_, st', t) => Some (rest, st', ParseCommand line :: t)
         | None => None
         end.
Proof.
  intros Hovf Hok Hoff Hnl Hnul Hlen. pose proof Hok as [Hblen _].
  assert (Hroom : buffer_offset st + Z.of_nat (length line) < SERIAL_BUFFER_SIZE)
    by lia.
  pose proof (buffer_ok_chars line st Hok Hroom) as Hok1.
  set (st1 := set_buffer_offset (buffer_offset st + Z.of_nat (length line))
                (set_buffer (fill (Z.to_nat (buffer_offset st)) line (buffer st)) st))
    in *.
  assert (Hbuf : buffer (at_dispatch st1) =
                 line ++ NUL :: drop (Datatypes.S (length line)) (buffer st)).
  { unfold at_dispatch, st1. cbn [buffer buffer_offset set_buffer set_buffer_offset].
    rewrite Hoff. change (Z.to_nat 0) with O. rewrite Z.add_0_l, Nat2Z.id.
    rewrite fill_take_drop by (unfold SERIAL_BUFFER_SIZE in *; cbn; lia).
    rewrite take_0. cbn [app Nat.add].
    rewrite insert_app_r_alt by lia. rewrite Nat.sub_diag.
    assert (Hi : (length line < length (buffer st))%nat)
      by (unfold SERIAL_BUFFER_SIZE in *; lia).
    destruct (lookup_lt_is_Some_2 (buffer st) (length line) Hi) as [x Hx].
    now rewrite (drop_S _ _ _ Hx). }
  exists (at_dispatch st1). split; [exact Hbuf|].
  split; [reflexivity|]. split; [reflexivity|].
  unfold read_serial. rewrite loop_chars by (assumption || congruence).
  rewrite Hovf. fold st1. rewrite loop_cons.
  rewrite body_normal_newline by (assumption || exact Hovf).
  rewrite Hbuf, text_before_nul, parse_command_text by assumption.
  destruct (parse_command _ _) as [[[u st'] t]|]; reflexivity.
Qed.

End Framing.

(** ** The second variant *)

Ltac sketch_variant_in Hrun :=
  cbv [bind ret gets modify emit undefined print println digitalWrite
       analogWrite delay Variant.call_stepper] in Hrun;
  cbn [fst snd app] in Hrun.

(** A test that contains no other test. *)
Ltac atomic x :=
  lazymatch x with
  | context [if _ then _ else _] => fail
  | context [match _ with _ => _ end] => fail
  | _ => idtac
  end.

Section SecondVariant.
Context {T : Type} `{CustomStepper T}.
Implicit Types st : @Part000.state T.

Lemma variant_atoi_arg_pure (s : list ascii) (v : Z) st st' (t : trace) :
  Variant.atoi_arg s st = Some (v, st', t) -> st' = st /\ t = [].
Proof.
  unfold Variant.atoi_arg, ret, undefined.
  destruct (cstring (drop 1 s)) as [a|]; [|discriminate].
  destruct (atoi a); [|discriminate].
  intros Hrun. now inversion Hrun.
Qed.

(** X13.  In the second variant the laser commands are not wired up: a
    line with opcode [d] or [f] is accepted without any answer and without
    any change, whatever its argument (which is not even read), and a line
    with opcode [a] or [u] is answered 501 UNKNOWN COMMAND.  No command of
    the variant changes [laser_duty_cycle] or the line reader's globals. *)
Theorem variant_ignores_the_laser_commands :
  (forall (s : list ascii) (c : ascii) st,
     s !! O = Some c -> c = "d"%char \/ c = "f"%char ->
     Variant.parse_command s st = Some (tt, st, []))
  /\
  (forall (s : list ascii) (c : ascii) st,
     s !! O = Some c -> c = "a"%char \/ c = "u"%char ->
     Variant.parse_command s st =
       Some (tt, st, [SerialPrintln "501 UNKNOWN COMMAND"]))
  /\
  (forall (s : list ascii) st st' (t : trace),
     Variant.parse_command s st = Some (tt, st', t) ->
     Part000.laser_duty_cycle st' = Part000.laser_duty_cycle st
     /\ Part000.buffer st' = Part000.buffer st
     /\ Part000.buffer_offset st' = Part000.buffer_offset st
     /\ Part000.overflow_mode st' = Part000.overflow_mode st
     /\ dispatches t = O).
Proof.
  split; [|split].
  - intros s c st Hs [-> | ->]; unfold Variant.parse_command; now rewrite Hs.
  - intros s c st Hs [-> | ->]; unfold Variant.parse_command; now rewrite Hs.
  - intros s st st' t Hrun.
    unfold Variant.parse_command, Variant.emergency_stop, Variant.step_focus,
      Part000.step_zero_pos, Variant.print_help, abs, int_neg, long_add in Hrun.
    sketch_variant_in Hrun. branches Hrun.
    all: repeat match goal with
           | Harg : Variant.atoi_arg _ _ = Some _ |- _ =>
               apply variant_atoi_arg_pure in Harg; destruct Harg as [-> ->]
           end.
    all: inversion Hrun; subst; cbn; auto.
Qed.

(** X14.  [step_focus] is the same in both variants: on states that agree
    on the globals the variants share, the two either both have no result,
    or write the same trace and end in states that agree again. *)
Theorem variants_agree_on_step_focus
  (n : Z) (st : @state T) (stv : @Part000.state T) :
  shared_variant stv = shared st ->
  match Variant.step_focus n stv, step_focus n st with
  | Some (_, stv', tv), Some (_, st', t) =>
      tv = t /\ shared_variant stv' = shared st'
      /\ laser_armed st' = laser_armed st
      /\ laser_duty_cycle st' = laser_duty_cycle st
      /\ Part000.laser_duty_cycle stv' = Part000.laser_duty_cycle stv
  | None, None => True
  | _, _ => False
  end.
Proof.
  intros Hshared. destruct st, stv. unfold shared, shared_variant in Hshared.
  cbn in Hshared. inversion Hshared; subst.
  unfold Variant.step_focus, step_focus, abs, int_neg, long_add.
  cbv [bind ret gets modify emit undefined print println call_stepper
       Variant.call_stepper app stepper stepper_pos set_stepper
       set_stepper_pos set_stepper_run Part000.stepper Part000.stepper_pos
       Variant.set_stepper Part000.set_stepper_pos Variant.set_stepper_run
       buffer buffer_offset overflow_mode stepper_run laser_duty_cycle
       laser_armed Part000.buffer Part000.buffer_offset
       Part000.overflow_mode Part000.stepper_run Part000.laser_duty_cycle].
  repeat match goal with
         | |- context [if ?b then _ else _] => destruct b eqn:?
         end; cbn; auto.
Qed.

(** One round of the loop that is not a dispatch goes the same way in
    both variants. *)
Lemma variants_agree_on_body
  (lc : Z) (c : ascii) (st : @state T) (stv : @Part000.state T) :
  shared_variant stv = shared st ->
  match read_serial_body lc c st with
  | Some (r, st', t) =>
      dispatches t = O ->
      exists rv stv',
        Variant.read_serial_body lc c stv = Some (rv, stv', t)
        /\ shared_variant stv' = shared st'
        /\ Part000.laser_duty_cycle stv' = Part000.laser_duty_cycle stv
        /\ match r, rv with
           | Return, Variant.Return => True
           | Continue a, Variant.Continue b => a = b
           | _, _ => False
           end
  | None => True
  end.
Proof.
  intros Hshared. destruct st, stv. unfold shared, shared_variant in Hshared.
  cbn in Hshared. inversion Hshared; subst. clear Hshared.
  unfold read_serial_body, Variant.read_serial_body, buffer_store,
    Variant.buffer_store, buffer_load, Variant.buffer_load.
  cbv [bind ret gets modify emit undefined print println
       buffer buffer_offset overflow_mode set_buffer set_buffer_offset
       set_overflow_mode Part000.buffer Part000.buffer_offset
       Part000.overflow_mode Variant.set_buffer Variant.set_buffer_offset
       Variant.set_overflow_mode shared shared_variant stepper stepper_run
       stepper_pos laser_duty_cycle laser_armed Part000.stepper
       Part000.stepper_run Part000.stepper_pos Part000.laser_duty_cycle].
  repeat match goal with
         | |- context [if ?b then _ else _] => atomic b; destruct b eqn:?
         | |- context [match ?x with _ => _ end] => atomic x; destruct x eqn:?
         end.
  all: try exact I.
  all: cbn [app dispatches]; intros Hquiet; try discriminate.
  all: eexists _, _; split; [reflexivity|]; repeat split.
Qed.

End SecondVariant.

(** ** The answers *)

Section Answers.
Context {T : Type} `{CustomStepper T}.
Implicit Types st : @state T.

(** X16.  Every command is answered: whatever [parse_command] runs, the
    text it writes to the serial line starts with one of the status codes
    of the protocol, and when that code is a refusal (530 unarmed, 521 over
    the rotation bound, 501 unknown) every global is as it was before. *)
Theorem every_command_answers (s : list ascii) st st' (t : trace) :
  parse_command s st = Some (tt, st', t) ->
  exists code : string,
    In code answer_codes
    /\ String.prefix code (serial_text t) = true
    /\ (In code refusal_codes -> st' = st).
Proof.
  intros Hrun.
  unfold parse_command, emergency_stop, laser_arm, laser_unarm,
    laser_set_duty_cycle, laser_fire, step_focus, step_zero_pos, print_help,
    abs, int_neg, long_add in Hrun.
  sketch_in Hrun. branches Hrun.
  all: pure_args; inversion Hrun; subst; clear Hrun; cbn [app serial_text].
  all: match goal with
       | |- context [String.prefix _ (String.append ?lit _)] =>
           let code := eval vm_compute in (substring 0 4 lit) in
           exists code
       | |- context [String.prefix _ (String ?a (String ?b (String ?c _)))] =>
           exists (String a (String b (String c (String " " EmptyString))))
       end.
  all: split; [unfold answer_codes; cbn; tauto|].
  all: split; [reflexivity|].
  all: unfold refusal_codes; cbn; intros Hin;
       repeat (destruct Hin as [Hin|Hin]; try discriminate);
       try contradiction; try reflexivity.
Qed.

End Answers.

(** ** The line reader of the second variant *)

Section VariantReader.
Context {T : Type} `{CustomStepper T}.

Lemma variant_store_then (c : ascii) {A} (k : unit -> M (@Part000.state T) A)
  (stv : @Part000.state T) :
  (0 <=? Part000.buffer_offset stv)
  && (Part000.buffer_offset stv <? Z.of_nat (length (Part000.buffer stv))) = true ->
  bind (Variant.buffer_store c) k stv =
    k tt (Variant.set_buffer
            (<[Z.to_nat (Part000.buffer_offset stv) := c]> (Part000.buffer stv)) stv).
Proof.
  intros Hin. unfold Variant.buffer_store. exec. rewrite Hin. now exec.
Qed.

Lemma variant_load_then {A} (k : ascii -> M (@Part000.state T) A) (c : ascii)
  (stv : @Part000.state T) :
  (0 <=? Part000.buffer_offset stv) = true ->
  Part000.buffer stv !! Z.to_nat (Part000.buffer_offset stv) = Some c ->
  bind Variant.buffer_load k stv = k c stv.
Proof.
  intros Hpos Hc. unfold Variant.buffer_load. exec. rewrite Hpos, Hc. now exec.
Qed.

Lemma variant_body_newline
  (lc : Z) (st : @state T) (stv : @Part000.state T) :
  shared_variant stv = shared st ->
  overflow_mode st = false -> buffer_ok st ->
  let stv0 :=
    Variant.set_buffer_offset 0
      (Variant.set_buffer
         (<[Z.to_nat (Part000.buffer_offset stv) := NUL]> (Part000.buffer stv))
         stv) in
  shared_variant stv0 = shared (at_dispatch st)
  /\ Part000.laser_duty_cycle stv0 = Part000.laser_duty_cycle stv
  /\ Variant.read_serial_body lc NL stv =
       match Variant.parse_command (buffer (at_dispatch st)) stv0 with
       | Some (_, stv', t) =>
           Some (Variant.Return, stv',
                 ParseCommand (text (buffer (at_dispatch st))) :: t)
       | None => None
       end.
Proof.
  intros Hshared Hovf Hok stv0. destruct (in_buffer st Hok) as (Hin & Hpos & Hlt).
  unfold shared, shared_variant in Hshared.
  inversion Hshared as [[Hb Ho Hm Hs Hr Hp]].
  rewrite <- Hb, <- Ho in Hin, Hlt. rewrite <- Ho in Hpos. rewrite <- Hm in Hovf.
  split; [|split].
  - unfold stv0, shared_variant, shared, at_dispatch. cbn. now rewrite Hb, Ho, Hm, Hs, Hr, Hp.
  - reflexivity.
  - unfold Variant.read_serial_body. rewrite variant_store_then by exact Hin.
    exec. cbn [Part000.overflow_mode Variant.set_buffer]. rewrite Hovf. exec.
    rewrite (variant_load_then _ NL);
      [|exact Hpos|cbn; now apply list_lookup_insert_eq].
    cbn [Ascii.eqb NL Bool.eqb].
    rewrite variant_store_then by (cbn; now rewrite length_insert).
    exec. cbn [Part000.buffer Part000.buffer_offset Variant.set_buffer
               Variant.set_buffer_offset].
    rewrite list_insert_insert_eq. unfold bind, ret.
    unfold at_dispatch. cbn [buffer set_buffer set_buffer_offset].
    rewrite <- Hb, <- Ho. fold stv0.
    change (Variant.set_buffer_offset 0
              (Variant.set_buffer
                 (<[Z.to_nat (Part000.buffer_offset stv) := NUL]> (Part000.buffer stv))
                 (Variant.set_buffer
                    (<[Z.to_nat (Part000.buffer_offset stv) := NL]> (Part000.buffer stv))
                    stv))) with stv0.
    destruct (Variant.parse_command _ stv0) as [[[u stv'] t]|]; [|reflexivity].
    now rewrite app_nil_r.
Qed.

Lemma variant_loop_cons (lc : Z) (c : ascii) (rest : list ascii)
  (stv : @Part000.state T) :
  Variant.read_serial_loop lc (c :: rest) stv =
    match Variant.read_serial_body lc c stv with
    | None => None
    | Some (Variant.Return, stv', t) => Some (rest, stv', t)
    | Some (Variant.Continue lc', stv', t) =>
        match Variant.read_serial_loop lc' rest stv' with
        | None => None
        | Some (rest', stv'', t') => Some (rest', stv'', t ++ t')
        end
    end.
Proof.
  cbn [Variant.read_serial_loop]. unfold bind.
  destruct (Variant.read_serial_body lc c stv) as [[[[|lc'] stv'] t]|];
    [|reflexivity..].
  unfold ret. now rewrite app_nil_r.
Qed.

Lemma variants_agree_on_lines (input : list ascii) :
  forall (lc : Z) (st : @state T) (stv : @Part000.state T),
  shared_variant stv = shared st ->
  buffer_ok st ->
  (exists (rest : list ascii) st' (t : trace) stv',
     read_serial_loop lc input st = Some (rest, st', t)
     /\ dispatches t = O
     /\ Variant.read_serial_loop lc input stv = Some (rest, stv', t)
     /\ shared_variant stv' = shared st'
     /\ Part000.laser_duty_cycle stv' = Part000.laser_duty_cycle stv)
  \/
  (exists (pre rest : list ascii) st0 stv0,
     input = pre ++ NL :: rest
     /\ shared_variant stv0 = shared st0
     /\ device st0 = device st
     /\ Part000.laser_duty_cycle stv0 = Part000.laser_duty_cycle stv
     /\ read_serial_loop lc input st =
          match parse_command (buffer st0) st0 with
          | Some (_, st', t) =>
              Some (rest, st', ParseCommand (text (buffer st0)) :: t)
          | None => None
          end
     /\ Variant.read_serial_loop lc input stv =
          match Variant.parse_command (buffer st0) stv0 with
          | Some (_, stv', t) =>
              Some (rest, stv', ParseCommand (text (buffer st0)) :: t)
          | None => None
          end).
Proof.
  induction input as [|c input IH]; intros lc st stv Hshared Hok.
  - left. exists [], st, [], stv. repeat split; auto.
  - rewrite loop_cons, variant_loop_cons.
    destruct (body_shape lc c st Hok)
      as [(r & st1 & t1 & Hbody & Hdev & Hok1 & Ht)|(Hovf & -> & Hokd & Hbody)].
    + pose proof (variants_agree_on_body lc c st stv Hshared) as Hagree.
      rewrite Hbody in Hagree |- *.
      assert (Hquiet : dispatches t1 = O)
        by (destruct r; [destruct Ht as [->| ->]|subst t1]; reflexivity).
      destruct (Hagree Hquiet) as (rv & stv1 & Hrunv & Hshared1 & Hduty & Hflow).
      rewrite Hrunv. destruct r as [|lc']; destruct rv as [|lcv]; try contradiction.
      * left. exists input, st1, t1, stv1. repeat split; auto.
      * subst lcv t1.
        destruct (IH lc' st1 stv1 Hshared1 Hok1)
          as [(rest & st2 & t2 & stv2 & Hloop & Hq2 & Hloopv & Hshared2 & Hduty2)
             |(pre & rest & st0 & stv0 & -> & Hshared0 & Hdev0 & Hduty0 & Hloop & Hloopv)].
        -- left. rewrite Hloop, Hloopv. exists rest, st2, t2, stv2.
           repeat split; auto. congruence.
        -- right. exists (c :: pre), rest, st0, stv0.
           rewrite Hloop, Hloopv.
           split; [reflexivity|].
           split; [exact Hshared0|]. split; [congruence|]. split; [congruence|].
           split.
           ++ destruct (parse_command (buffer st0) st0) as [[[u st'] t]|];
                reflexivity.
           ++ destruct (Variant.parse_command (buffer st0) stv0) as [[[u st'] t]|];
                reflexivity.
    + destruct (variant_body_newline lc st stv Hshared Hovf Hok)
        as (Hshared0 & Hduty0 & Hrunv).
      right. eexists [], input, (at_dispatch st), _.
      split; [reflexivity|]. split; [exact Hshared0|].
      split; [reflexivity|]. split; [exact Hduty0|].
      rewrite Hbody, Hrunv. split.
      * destruct (parse_command _ _) as [[[u st'] t]|]; reflexivity.
      * destruct (Variant.parse_command _ _) as [[[u st'] t]|]; reflexivity.
Qed.

(** X17.  The two variants frame lines in the same way.  On states that
    agree on the shared globals, a call of [read_serial] either dispatches
    nothing in both variants, reading the same bytes and writing the same
    trace, or it dispatches the same text at the same terminator in both,
    each variant handing it to its own [parse_command]. *)
Theorem variants_frame_lines_alike
  (input : list ascii) (st : @state T) (stv : @Part000.state T) :
  shared_variant stv = shared st ->
  buffer_ok st ->
  (exists (rest : list ascii) st' (t : trace) stv',
     read_serial input st = Some (rest, st', t)
     /\ dispatches t = O
     /\ Variant.read_serial input stv = Some (rest, stv', t)
     /\ shared_variant stv' = shared st'
     /\ Part000.laser_duty_cycle stv' = Part000.laser_duty_cycle stv)
  \/
  (exists (pre rest : list ascii) st0 stv0,
     input = pre ++ NL :: rest
     /\ shared_variant stv0 = shared st0
     /\ device st0 = device st
     /\ Part000.laser_duty_cycle stv0 = Part000.laser_duty_cycle stv
     /\ read_serial input st =
          match parse_command (buffer st0) st0 with
          | Some (_, st', t) =>
              Some (rest, st', ParseCommand (text (buffer st0)) :: t)
          | None => None
          end
     /\ Variant.read_serial input stv =
          match Variant.parse_command (buffer st0) stv0 with
          | Some (_, stv', t) =>
              Some (rest, stv', ParseCommand (text (buffer st0)) :: t)
          | None => None
          end).
Proof. apply variants_agree_on_lines. Qed.

End VariantReader.

(** ** What follows an overflow *)

Section AfterOverflow.
Context {T : Type} `{CustomStepper T}.
Implicit Types st : @state T.

(** A line read from a cursor that is not at 0 is dispatched with what the
    array holds before the cursor in front of it. *)
Lemma dispatch_with_prefix (p line rest : list ascii) st :
  overflow_mode st = false -> buffer_ok st ->
  buffer_offset st = Z.of_nat (length p) ->
  take (length p) (buffer st) = p ->
  Forall (fun c => c <> NL) line ->
  Forall (fun c => c <> NUL) (p ++ line) ->
  Z.of_nat (length p + length line) < SERIAL_BUFFER_SIZE ->
  exists st0,
    device st0 = device st
    /\ read_serial (line ++ NL :: rest) st =
         match parse_command ((p ++ line) ++ [NUL]) st0 with
         | Some (_, st', t) => Some (rest, st', ParseCommand (p ++ line) :: t)
         | None => None
         end.
Proof.
  intros Hovf Hok Hoff Hp Hnl Hnul Hlen. pose proof Hok as [Hblen _].
  assert (Hroom : buffer_offset st + Z.of_nat (length line) < SERIAL_BUFFER_SIZE)
    by lia.
  pose proof (buffer_ok_chars line st Hok Hroom) as Hok1.
  set (st1 := set_buffer_offset (buffer_offset st + Z.of_nat (length line))
                (set_buffer (fill (Z.to_nat (buffer_offset st)) line (buffer st)) st))
    in *.
  assert (Hbuf : buffer (at_dispatch st1) =
                 (p ++ line) ++ NUL
                 :: drop (Datatypes.S (length p + length line)) (buffer st)).
  { unfold at_dispatch, st1. cbn [buffer buffer_offset set_buffer set_buffer_offset].
    rewrite Hoff, <- Nat2Z.inj_add, !Nat2Z.id.
    rewrite fill_take_drop by (unfold SERIAL_BUFFER_SIZE in *; lia).
    rewrite Hp, app_assoc.
    rewrite insert_app_r_alt by (rewrite length_app; lia).
    rewrite length_app, Nat.sub_diag.
    assert (Hi : (length p + length line < length (buffer st))%nat)
      by (unfold SERIAL_BUFFER_SIZE in *; lia).
    destruct (lookup_lt_is_Some_2 (buffer st) _ Hi) as [x Hx].
    now rewrite (drop_S _ _ _ Hx). }
  exists (at_dispatch st1). split; [reflexivity|].
  unfold read_serial. rewrite loop_chars by (assumption || congruence).
  rewrite Hovf. fold st1. rewrite loop_cons.
  rewrite body_normal_newline by (assumption || exact Hovf).
  rewrite Hbuf, text_before_nul, parse_command_text by assumption.
  destruct (parse_command _ _) as [[[u st'] t]|]; reflexivity.
Qed.

(** X18.  Framing after an overflow.  When a line of more than 80 bytes
    overflows the array, the bytes [junk] that follow its first 80 are
    stored from the start of the array while they are discarded, and the
    terminator that ends overflow mode leaves the cursor behind them.  The
    next line is therefore dispatched with [junk] in front of it (and as
    sent when [junk] is empty, the long line having exactly 80 bytes). *)
Theorem discarded_bytes_prefix_the_next_line
  (head junk line rest : list ascii) st :
  overflow_mode st = false -> buffer_ok st -> buffer_offset st = 0 ->
  length head = 80%nat ->
  Forall (fun c => c <> NL) (head ++ junk ++ line) ->
  Forall (fun c => c <> NUL) (junk ++ line) ->
  Z.of_nat (length junk + length line) < SERIAL_BUFFER_SIZE ->
  exists st1 st2 st0,
    read_serial (head ++ junk ++ NL :: line ++ NL :: rest) st =
      Some (junk ++ NL :: line ++ NL :: rest, st1, [SerialPrintln "510 OVERFLOW"])
    /\ read_serial (junk ++ NL :: line ++ NL :: rest) st1 =
         Some (line ++ NL :: rest, st2, [])
    /\ device st0 = device st
    /\ read_serial (line ++ NL :: rest) st2 =
         match parse_command ((junk ++ line) ++ [NUL]) st0 with
         | Some (_, st', t) =>
             Some (rest, st', ParseCommand (junk ++ line) :: t)
         | None => None
         end.
Proof.
  intros Hovf Hok Hoff Hhead Hnl Hnul Hlen. pose proof Hok as [Hblen _].
  apply Forall_app in Hnl. destruct Hnl as [Hnl_head Hnl].
  apply Forall_app in Hnl. destruct Hnl as [Hnl_junk Hnl_line].
  (* the call that overflows *)
  destruct (exists_last (l := head)) as (cs & c & Hsplit);
    [intros ->; discriminate|].
  assert (Hcall1 :
    read_serial (head ++ junk ++ NL :: line ++ NL :: rest) st =
      Some (junk ++ NL :: line ++ NL :: rest,
            set_overflow_mode true
              (set_buffer_offset 0 (set_buffer (fill 0 head (buffer st)) st)),
            [SerialPrintln "510 OVERFLOW"])).
  { subst head. rewrite length_app in Hhead. cbn in Hhead.
    apply Forall_app in Hnl_head. destruct Hnl_head as [Hcs Hc].
    inversion Hc; subst.
    unfold read_serial. rewrite <- app_assoc. cbn [app].
    rewrite overflow_entered; try assumption;
      [|rewrite Hoff; unfold SERIAL_BUFFER_SIZE; lia].
    now rewrite Hoff. }
  set (st1 := set_overflow_mode true
                (set_buffer_offset 0 (set_buffer (fill 0 head (buffer st)) st)))
    in *.
  assert (Hok1 : buffer_ok st1).
  { split; cbn; [now rewrite length_fill|unfold SERIAL_BUFFER_SIZE; lia]. }
  (* the call that ends overflow mode *)
  set (st2 := set_overflow_mode false
                (set_buffer
                   (<[length junk := NL]> (fill 0 junk (buffer st1)))
                   (set_buffer_offset (Z.of_nat (length junk)) st1))).
  assert (Hcall2 :
    read_serial (junk ++ NL :: line ++ NL :: rest) st1 =
      Some (line ++ NL :: rest, st2, [])).
  { unfold read_serial.
    rewrite loop_chars; try assumption;
      [|cbn; lia|intros _; cbn; lia].
    cbn [overflow_mode st1 set_overflow_mode].
    rewrite loop_cons, body_overflow_newline;
      [|reflexivity|apply buffer_ok_chars; [assumption|cbn; lia]].
    unfold st2. cbn [buffer buffer_offset set_buffer set_buffer_offset st1
                     set_overflow_mode Z.to_nat Z.add].
    rewrite Z.add_0_l, Nat2Z.id. reflexivity. }
  assert (Hok2 : buffer_ok st2).
  { split; cbn; [now rewrite length_insert, !length_fill|].
    unfold SERIAL_BUFFER_SIZE in *. lia. }
  (* the next line *)
  destruct (dispatch_with_prefix junk line rest st2) as (st0 & Hdev & Hcall3);
    try assumption; try reflexivity.
  { cbn [buffer st2 set_overflow_mode set_buffer].
    rewrite take_insert_ge by lia.
    rewrite fill_take_drop
      by (cbn; rewrite length_fill; unfold SERIAL_BUFFER_SIZE in *; lia).
    rewrite take_0. cbn [app]. apply take_app_length. }
  exists st1, st2, st0. repeat split; auto.
Qed.

End AfterOverflow.

(** ** Further runs on the concrete stepper *)

Lemma parse_command_undefined_cases_witness :
  (bytes "p-32768" ++ [NUL]) !! O = Some "p"%char
  /\ (parse_command (bytes "p-32768" ++ [NUL]) start = None <->
      ("p"%char = "d"%char \/ "p"%char = "f"%char \/ "p"%char = "p"%char) /\
      (atoi_arg (bytes "p-32768" ++ [NUL]) start = None
       \/ ("p"%char = "p"%char /\
           exists v, atoi_arg (bytes "p-32768" ++ [NUL]) start = Some (v, start, []) /\
             (v = INT_MIN
              \/ (Z.abs v <= MAX_FOCUS_ROTATION
                  /\ in_long (stepper_pos start + v) = false))))).
Proof.
  split; [reflexivity|].
  apply (parse_command_undefined_cases (bytes "p-32768" ++ [NUL]) "p"%char start).
  reflexivity.
Defined.

Lemma missing_argument_reads_as_zero_witness :
  cstring (drop 1 (bytes "pxyz" ++ [NUL])) = Some (bytes "xyz")
  /\ starts_number (bytes "xyz") = false
  /\ ((bytes "pxyz" ++ [NUL]) !! O = Some "p"%char ->
      parse_command (bytes "pxyz" ++ [NUL]) start = step_focus 0 start).
Proof.
  split; [reflexivity|]. split; [reflexivity|].
  apply (missing_argument_reads_as_zero (bytes "pxyz" ++ [NUL]) (bytes "xyz") start);
    reflexivity.
Defined.

Lemma focus_then_zero_reports_the_sum_witness :
  INT_MIN < 90 /\ Z.abs 90 <= MAX_FOCUS_ROTATION
  /\ in_long (stepper_pos start + 90) = true
  /\ exists st',
       bind (step_focus 90) (fun _ => step_zero_pos) start =
         Some (tt, st',
               [SerialPrint "204 FOCUS "; SerialPrintln (dec 90);
                SerialPrint "209 FOCUS ZEROED, old pos = ";
                SerialPrintln (dec (stepper_pos start + 90))])
       /\ stepper_pos st' = 0
       /\ stepper_run st' = true
       /\ stepper st' =
            rotateDegrees (Z.abs 90)
              (setDirection (if 90 >? 0 then CCW else CW) (stepper start)).
Proof.
  unfold INT_MIN, MAX_FOCUS_ROTATION.
  split; [lia|]. split; [cbn; lia|]. split; [reflexivity|].
  apply (focus_then_zero_reports_the_sum 90 start);
    unfold INT_MIN, MAX_FOCUS_ROTATION; cbn; (lia || reflexivity).
Defined.

Lemma abort_keeps_the_counted_position_witness :
  exists st',
    bind (step_focus 90) (fun _ => emergency_stop) armed100 =
      Some (tt, st',
            [SerialPrint "204 FOCUS "; SerialPrintln (dec 90);
             DigitalWrite PIN_LASER_ARM LOW; AnalogWrite PIN_LASER_PWM 0;
             SerialPrintln "520 LASER OFF (unarmed, duty_cycle = 0";
             SerialPrintln "521 STEPPER STOPPED, POSITION LOST"])
    /\ stepper_pos st' = stepper_pos armed100 + 90
    /\ stepper_run st' = false
    /\ laser_armed st' = false
    /\ stepper st' =
         setDirection STOP
           (rotateDegrees (Z.abs 90)
              (setDirection (if 90 >? 0 then CCW else CW) (stepper armed100))).
Proof.
  apply (abort_keeps_the_counted_position 90 armed100 model_rotate_not_done);
    unfold INT_MIN, MAX_FOCUS_ROTATION; cbn; (lia || reflexivity).
Defined.

Lemma commands_keep_the_line_reader_witness :
  parse_command (bytes "a" ++ [NUL]) start =
    Some (tt, set_laser_armed true start,
          [DigitalWrite PIN_LASER_ARM HIGH; SerialPrintln "207 LASER ARMED"])
  /\ buffer (set_laser_armed true start) = buffer start
  /\ buffer_offset (set_laser_armed true start) = buffer_offset start
  /\ overflow_mode (set_laser_armed true start) = overflow_mode start
  /\ dispatches [DigitalWrite PIN_LASER_ARM HIGH; SerialPrintln "207 LASER ARMED"] = O.
Proof.
  split; [reflexivity|].
  apply (commands_keep_the_line_reader (bytes "a" ++ [NUL]) start).
  reflexivity.
Defined.

Lemma read_serial_undefined_only_in_dispatch_witness :
  read_serial (bytes "p99999" ++ [NL]) start = None
  /\ exists (pre rest : list ascii) st0,
       bytes "p99999" ++ [NL] = pre ++ NL :: rest
       /\ buffer_ok st0 /\ device st0 = device start
       /\ parse_command (buffer st0) st0 = None.
Proof.
  split; [reflexivity|].
  apply (read_serial_undefined_only_in_dispatch (bytes "p99999" ++ [NL]) start);
    [exact start_ok|reflexivity].
Defined.

Lemma poll_only_reports_completion_witness :
  exists st' (t : trace),
    loop 7 [] armed_and_moving = Some ([], st', t)
    /\ exists st1 (t1 : trace),
         read_serial [] armed_and_moving = Some ([], st1, t1)
         /\ laser_armed st' = laser_armed st1
         /\ laser_duty_cycle st' = laser_duty_cycle st1
         /\ stepper_pos st' = stepper_pos st1
         /\ buffer st' = buffer st1
         /\ buffer_offset st' = buffer_offset st1
         /\ overflow_mode st' = overflow_mode st1
         /\ ((t = t1 /\ stepper_run st' = stepper_run st1
              /\ (isDone (stepper st1) = true -> st' = st1))
             \/ (t = t1 ++ [SerialPrint "201 FOCUS DONE, pos = ";
                            SerialPrintln (dec (stepper_pos st1))]
                 /\ stepper_run st' = false
                 /\ isDone (stepper st1) = false
                 /\ stepper st' = run 7 (stepper st1)
                 /\ isDone (stepper st') = true)).
Proof.
  eexists _, _. split; [reflexivity|].
  apply (poll_only_reports_completion 7 [] [] armed_and_moving). reflexivity.
Defined.

Lemma unarmed_laser_is_never_driven_witness :
  loop 0 (bytes "f50" ++ [NL]) start =
    Some ([], after_f50,
          [ParseCommand (bytes "f50"); SerialPrintln "530 LASER UNARMED"])
  /\ Forall (fun v => v = 0)
       (pwm_writes [ParseCommand (bytes "f50"); SerialPrintln "530 LASER UNARMED"]).
Proof.
  split; [reflexivity|].
  apply (unarmed_laser_is_never_driven 0 (bytes "f50" ++ [NL]) [] start after_f50);
    [exact start_ok|reflexivity|reflexivity].
Defined.

Lemma outputs_follow_the_globals_witness :
  outputs_agree (LOW, 0) start
  /\ outputs_agree
       (outputs [ParseCommand (bytes "f50"); SerialPrintln "530 LASER UNARMED"]
          (LOW, 0))
       after_f50.
Proof.
  assert (Hbefore : outputs_agree (LOW, 0) start)
    by (split; [reflexivity|split; discriminate]).
  split; [exact Hbefore|].
  destruct (@outputs_follow_the_globals ModelStepper.t _) as [_ Hloop].
  apply (Hloop 0 (bytes "f50" ++ [NL]) [] start after_f50 _ (LOW, 0));
    [exact start_ok|exact Hbefore|reflexivity].
Defined.

Lemma globals_stay_in_range_witness :
  in_range armed_and_moving /\ buffer_ok armed_and_moving.
Proof.
  apply (globals_stay_in_range armed_and_moving armed_and_moving_reachable).
Defined.

Lemma partial_line_is_buffered_witness :
  exists st1 st2,
    read_serial (bytes "p1") start = Some ([], st1, [])
    /\ read_serial (bytes "23") st1 = Some ([], st2, [])
    /\ read_serial (bytes "p1" ++ bytes "23") start = Some ([], st2, [])
    /\ device st2 = device start
    /\ overflow_mode st2 = false
    /\ buffer_offset st2 =
         buffer_offset start + Z.of_nat (length (bytes "p1" ++ bytes "23")).
Proof.
  apply (partial_line_is_buffered (bytes "p1") (bytes "23") start);
    [reflexivity|exact start_ok|repeat constructor; discriminate|].
  unfold SERIAL_BUFFER_SIZE. cbn. lia.
Defined.

Lemma armed_and_moving_ok : buffer_ok armed_and_moving.
Proof. split; [reflexivity|]. unfold SERIAL_BUFFER_SIZE. cbn. lia. Qed.

Lemma line_dispatched_by_its_text_witness :
  exists st0,
    buffer st0 =
      bytes "z" ++ NUL :: drop (Datatypes.S (length (bytes "z")))
                               (buffer armed_and_moving)
    /\ buffer_offset st0 = 0
    /\ device st0 = device armed_and_moving
    /\ read_serial (bytes "z" ++ NL :: []) armed_and_moving =
         match parse_command (bytes "z" ++ [NUL]) st0 with
         | Some (_, st', t) => Some ([], st', ParseCommand (bytes "z") :: t)
         | None => None
         end.
Proof.
  apply (line_dispatched_by_its_text (bytes "z") [] armed_and_moving);
    [reflexivity|exact armed_and_moving_ok|reflexivity
    |repeat constructor; discriminate|repeat constructor; discriminate|].
  unfold SERIAL_BUFFER_SIZE. cbn. lia.
Defined.

Lemma variant_ignores_the_laser_commands_witness :
  Variant.parse_command (bytes "d100" ++ [NUL]) variant_at_5 =
    Some (tt, variant_at_5, [])
  /\ Variant.parse_command (bytes "a" ++ [NUL]) variant_at_5 =
       Some (tt, variant_at_5, [SerialPrintln "501 UNKNOWN COMMAND"]).
Proof.
  destruct (@variant_ignores_the_laser_commands ModelStepper.t _)
    as (Hignored & Hunknown & _).
  split.
  - apply (Hignored _ "d"%char); [reflexivity|now left].
  - apply (Hunknown _ "a"%char); [reflexivity|now left].
Defined.

Lemma variants_agree_on_step_focus_witness :
  shared_variant (Part000.globals (T := ModelStepper.t)) = shared start
  /\ match Variant.step_focus 90 Part000.globals, step_focus 90 start with
     | Some (_, stv', tv), Some (_, st', t) =>
         tv = t /\ shared_variant stv' = shared st'
         /\ laser_armed st' = laser_armed start
         /\ laser_duty_cycle st' = laser_duty_cycle start
         /\ Part000.laser_duty_cycle stv' =
              Part000.laser_duty_cycle (Part000.globals (T := ModelStepper.t))
     | None, None => True
     | _, _ => False
     end.
Proof.
  split; [reflexivity|].
  apply (variants_agree_on_step_focus 90 start Part000.globals). reflexivity.
Defined.

Lemma every_command_answers_witness :
  parse_command (bytes "f50" ++ [NUL]) start =
    Some (tt, start, [SerialPrintln "530 LASER UNARMED"])
  /\ exists code : string,
       In code answer_codes
       /\ String.prefix code (serial_text [SerialPrintln "530 LASER UNARMED"]) = true
       /\ (In code refusal_codes -> start = start).
Proof.
  split; [reflexivity|].
  apply (every_command_answers (bytes "f50" ++ [NUL]) start start). reflexivity.
Defined.

Lemma variants_frame_lines_alike_witness :
  shared_variant (Part000.globals (T := ModelStepper.t)) = shared start
  /\ ((exists (rest : list ascii) st' (t : trace) stv',
         read_serial (bytes "z" ++ [NL]) start = Some (rest, st', t)
         /\ dispatches t = O
         /\ Variant.read_serial (bytes "z" ++ [NL]) Part000.globals =
              Some (rest, stv', t)
         /\ shared_variant stv' = shared st'
         /\ Part000.laser_duty_cycle stv' =
              Part000.laser_duty_cycle (Part000.globals (T := ModelStepper.t)))
      \/
      (exists (pre rest : list ascii) st0 stv0,
         bytes "z" ++ [NL] = pre ++ NL :: rest
         /\ shared_variant stv0 = shared st0
         /\ device st0 = device start
         /\ Part000.laser_duty_cycle stv0 =
              Part000.laser_duty_cycle (Part000.globals (T := ModelStepper.t))
         /\ read_serial (bytes "z" ++ [NL]) start =
              match parse_command (buffer st0) st0 with
              | Some (_, st', t) =>
                  Some (rest, st', ParseCommand (text (buffer st0)) :: t)
              | None => None
              end
         /\ Variant.read_serial (bytes "z" ++ [NL]) Part000.globals =
              match Variant.parse_command (buffer st0) stv0 with
              | Some (_, stv', t) =>
                  Some (rest, stv', ParseCommand (text (buffer st0)) :: t)
              | None => None
              end)).
Proof.
  split; [reflexivity|].
  apply (variants_frame_lines_alike (bytes "z" ++ [NL]) start Part000.globals);
    [reflexivity|exact start_ok].
Defined.

Lemma discarded_bytes_prefix_the_next_line_witness :
  exists st1 st2 st0,
    read_serial (xs 80 ++ xs 20 ++ NL :: bytes "a" ++ NL :: []) start =
      Some (xs 20 ++ NL :: bytes "a" ++ NL :: [], st1,
            [SerialPrintln "510 OVERFLOW"])
    /\ read_serial (xs 20 ++ NL :: bytes "a" ++ NL :: []) st1 =
         Some (bytes "a" ++ NL :: [], st2, [])
    /\ device st0 = device start
    /\ read_serial (bytes "a" ++ NL :: []) st2 =
         match parse_command ((xs 20 ++ bytes "a") ++ [NUL]) st0 with
         | Some (_, st', t) =>
             Some ([], st', ParseCommand (xs 20 ++ bytes "a") :: t)
         | None => None
         end.
Proof.
  apply (discarded_bytes_prefix_the_next_line (xs 80) (xs 20) (bytes "a") [] start);
    [reflexivity|exact start_ok|reflexivity|reflexivity| | |].
  - apply Forall_app. split; [apply xs_no_newline|].
    apply Forall_app. split; [apply xs_no_newline|].
    repeat constructor; discriminate.
  - apply Forall_app. split; [apply Forall_replicate; discriminate|].
    repeat constructor; discriminate.
  - unfold SERIAL_BUFFER_SIZE. cbn. lia.
Defined.

(** Where [step_focus] has no result.  The line [p-32768] delivers
    [INT_MIN], whose negation in the [abs] macro does not fit an [int]: the
    request, although far over the bound, is not answered with the 521
    status.  And a rotation of 1 degree from the largest position a [long]
    holds has no sum to store. *)
Lemma step_focus_undefined_at_the_type_limits :
  MAX_FOCUS_ROTATION < Z.abs INT_MIN
  /\ atoi (bytes "-32768") = Some INT_MIN
  /\ parse_command (bytes "p-32768" ++ [NUL]) start = None
  /\ step_focus INT_MIN start = None
  /\ Z.abs 1 <= MAX_FOCUS_ROTATION
  /\ in_long (stepper_pos (set_stepper_pos LONG_MAX start)) = true
  /\ step_focus 1 (set_stepper_pos LONG_MAX start) = None.
Proof.
  split; [reflexivity|]. split; [reflexivity|]. split; [reflexivity|].
  split; [reflexivity|]. split; [unfold MAX_FOCUS_ROTATION; cbn; lia|].
  split; reflexivity.
Qed.
